(** * small_tools: the GPT-2 re-implementation and the flow-matching module

    A shallow embedding of
      - [llms/LLMs-from-scratch/gpt2.py]  (module [GPT2] below), and
      - [audio/GLM-4-Voice/cosyvoice/flow/flow.py]  (module [Flow] below).

    Conventions of the embedding.
      - A tensor of rank k is a k-fold nested list; integer tensors hold [Z],
        floating tensors hold [R]: the float arithmetic of the tensor library
        is read as exact real arithmetic.
      - Python exceptions are values of [exn]; a computation that may raise
        returns a [result].
      - Modules that draw random numbers (dropout, the attention layer, the
        flow decoder, Python's [random]) thread a generator state of an
        abstract type [G]: a stateful computation has type [M G A].
      - Layers that the two files receive from outside (the attention class,
        dropout, the injected encoder, length regulator and decoder, the
        padding-mask helper) are parameters of the development. *)

From Stdlib Require Import List ZArith Bool Arith Lia.
From Stdlib Require Import Reals Lra.
Import ListNotations.

(** ** Exceptions, results, and the generator-state monad *)

Inductive exn : Type :=
| AssertionError
| IndexError
| RuntimeError.

Inductive result (A : Type) : Type :=
| Ok (a : A)
| Err (e : exn).

Arguments Ok {A} a.
Arguments Err {A} e.

Definition rbind {A B : Type} (c : result A) (k : A -> result B) : result B :=
  match c with
  | Ok a => k a
  | Err e => Err e
  end.

Notation "'let*' x ':=' c 'in' k" := (rbind c (fun x => k))
  (at level 10, x name, c at level 100, k at level 200).

Fixpoint mapM {A B : Type} (f : A -> result B) (l : list A) : result (list B) :=
  match l with
  | [] => Ok []
  | x :: t =>
      let* y := f x in
      let* ys := mapM f t in
      Ok (y :: ys)
  end.

(** A computation that may consume randomness and may raise. *)
Definition M (G A : Type) : Type := G -> result A * G.

Definition ret {G A : Type} (a : A) : M G A := fun g => (Ok a, g).

Definition bind {G A B : Type} (c : M G A) (k : A -> M G B) : M G B :=
  fun g =>
    match c g with
    | (Ok a, g') => k a g'
    | (Err e, g') => (Err e, g')
    end.

Definition lift {G A : Type} (c : result A) : M G A := fun g => (c, g).

Notation "x <- c ;; k" := (bind c (fun x => k))
  (at level 100, c at next level, right associativity).

(** A computation that never raises [AssertionError]. *)
Definition no_assert {A : Type} (r : result A) : Prop := r <> Err AssertionError.

Definition never_asserts {G A : Type} (c : M G A) : Prop :=
  forall g, no_assert (fst (c g)).

(** ** Tensors as nested lists *)

Abbreviation vec := (list R).
Abbreviation tensor2 := (list (list R)).
Abbreviation tensor3 := (list (list (list R))).
Abbreviation tokens := (list (list Z)).

Definition has_shape1 {A : Type} (n : nat) (v : list A) : Prop := length v = n.

Definition has_shape2 {A : Type} (b s : nat) (x : list (list A)) : Prop :=
  length x = b /\ Forall (has_shape1 s) x.

Definition has_shape3 {A : Type} (b s v : nat) (x : list (list (list A))) : Prop :=
  length x = b /\ Forall (has_shape2 s v) x.

(** Python's [l[start:]] for an arbitrary (possibly negative) [start]. *)
Definition py_slice_from {A : Type} (start : Z) (l : list A) : list A :=
  let len := Z.of_nat (length l) in
  let s := if (start <? 0)%Z then Z.max (start + len) 0 else Z.min start len in
  skipn (Z.to_nat s) l.

(** The last [c] elements of a list (all of it when it is shorter). *)
Definition lastn {A : Type} (c : nat) (l : list A) : list A :=
  skipn (length l - c) l.

(** [torch.cat((a, b), dim=1)] on rank-2 tensors: the batch sizes must agree. *)
Definition cat_dim1 {A : Type} (a b : list (list A)) : result (list (list A)) :=
  if Nat.eqb (length a) (length b)
  then Ok (map (fun p => fst p ++ snd p) (combine a b))
  else Err RuntimeError.

(** [t[:, -1, :]] on a rank-3 tensor: the last position of every batch row. *)
Definition select_last {A : Type} (t : list (list (list A))) : result (list (list A)) :=
  mapM (fun seq => match seq with
                   | [] => Err IndexError
                   | _ :: _ => Ok (last seq [])
                   end) t.

(** Elementwise binary operation with the broadcasting rule of the tensor
    library on one dimension: equal sizes pair up, a size of one is
    stretched, anything else raises. *)
Definition bzipM {A B C : Type} (f : A -> B -> result C)
    (a : list A) (b : list B) : result (list C) :=
  if Nat.eqb (length a) (length b)
  then mapM (fun p => f (fst p) (snd p)) (combine a b)
  else match a, b with
       | [x], _ => mapM (f x) b
       | _, [y] => mapM (fun x => f x y) a
       | _, _ => Err RuntimeError
       end.

(** [a + b] on tensors of rank 1, 2 and 3, and of rank 3 with rank 2. *)
Definition vadd (a b : vec) : result vec :=
  bzipM (fun x y => Ok (x + y)%R) a b.

Definition madd (a b : tensor2) : result tensor2 := bzipM vadd a b.

Definition tadd (a b : tensor3) : result tensor3 := bzipM madd a b.

Definition tadd_rank2 (a : tensor3) (b : tensor2) : result tensor3 :=
  mapM (fun m => madd m b) a.

(** [a * b] on rank-1 tensors. *)
Definition vmul (a b : vec) : result vec :=
  bzipM (fun x y => Ok (x * y)%R) a b.

(** ** Numeric kernels *)

Definition rsum (v : vec) : R := fold_right Rplus 0%R v.

(** [torch.softmax(v, dim=-1)] on one vector. *)
Definition softmax (v : vec) : vec :=
  let total := rsum (map exp v) in
  map (fun x => (exp x / total)%R) v.

(** [torch.argmax] scans for the first maximal value. *)
Fixpoint argmax_from (best_i : nat) (best : R) (i : nat) (v : vec) : nat :=
  match v with
  | [] => best_i
  | x :: t =>
      if Rlt_dec best x
      then argmax_from i x (S i) t
      else argmax_from best_i best (S i) t
  end.

Definition argmax (v : vec) : result nat :=
  match v with
  | [] => Err IndexError
  | x :: t => Ok (argmax_from 0 x 1 t)
  end.

(** [torch.argmax(p, dim=-1, keepdim=True)] on a rank-2 tensor. *)
Definition argmax_keepdim (p : tensor2) : result tokens :=
  mapM (fun v => let* i := argmax v in Ok [Z.of_nat i]) p.

(** [i] is the position of the first maximal entry of [v]. *)
Definition is_first_max (v : vec) (i : nat) : Prop :=
  (i < length v)%nat /\
  (forall j, (j < length v)%nat -> (nth j v 0 <= nth i v 0)%R) /\
  (forall j, (j < i)%nat -> (nth j v 0 < nth i v 0)%R).

(** ** Layers of the tensor library *)

Module nn.

(** [nn.Embedding]: a table of rows looked up by index; an index outside
    the table raises. *)
Module Embedding.

Definition forward (weight : tensor2) (i : Z) : result vec :=
  if (i <? 0)%Z then Err IndexError
  else match nth_error weight (Z.to_nat i) with
       | Some row => Ok row
       | None => Err IndexError
       end.

End Embedding.

(** [nn.Linear]: [x @ weight^T + bias] on the last dimension. *)
Module Linear.

Record t : Type := mk {
  in_features : nat;
  out_features : nat;
  weight : tensor2;
  bias : option vec
}.

Definition dot (a b : vec) : R :=
  rsum (map (fun p => (fst p * snd p)%R) (combine a b)).

Definition forward_row (l : t) (x : vec) : result vec :=
  if Nat.eqb (length x) (in_features l)
  then
    let y := map (fun w => dot x w) (weight l) in
    match bias l with
    | Some b => Ok (map (fun p => (fst p + snd p)%R) (combine y b))
    | None => Ok y
    end
  else Err RuntimeError.

Definition forward (l : t) (x : tensor3) : result tensor3 :=
  mapM (mapM (forward_row l)) x.

(** What the constructor [nn.Linear(n_in, n_out, bias=with_bias)]
    establishes. *)
Definition built (n_in n_out : nat) (with_bias : bool) (l : t) : Prop :=
  in_features l = n_in /\ out_features l = n_out /\
  has_shape2 n_out n_in (weight l) /\
  match bias l with
  | Some b => with_bias = true /\ length b = n_out
  | None => with_bias = false
  end.

End Linear.

End nn.

(** ** gpt2.py *)

Module GPT2.

Module LayerNrom.

Record t : Type := mk {
  eps : R;
  scale : vec;
  shift : vec
}.

Definition mean (x : vec) : R := (rsum x / INR (length x))%R.

(** [x.var(dim=-1, unbiased=False)] *)
Definition var (x : vec) : R :=
  (rsum (map (fun xi => (xi - mean x) * (xi - mean x)) x) / INR (length x))%R.

Definition norm_x (ln : t) (x : vec) : vec :=
  map (fun xi => ((xi - mean x) / sqrt (var x + eps ln))%R) x.

(** Line 59 on one vector of the last dimension:
    [self.scale * norm_x - mean + self.shift]. *)
Definition forward_row (ln : t) (x : vec) : result vec :=
  let* scaled := vmul (scale ln) (norm_x ln x) in
  let centred := map (fun y => (y - mean x)%R) scaled in
  vadd centred (shift ln).

Definition forward (ln : t) (x : tensor3) : result tensor3 :=
  mapM (mapM (forward_row ln)) x.

(** Standard layer normalisation of one vector:
    [scale * (x - mean) / sqrt(var + eps) + shift]. *)
Definition layer_norm_row (ln : t) (x : vec) : result vec :=
  let* scaled := vmul (scale ln) (norm_x ln x) in
  vadd scaled (shift ln).

(** [__init__]: [eps = 1e-5], [scale = ones(emb_dim)], [shift = zeros(emb_dim)]. *)
Definition init (emb_dim : nat) : t :=
  mk (1 / 100000)%R (repeat 1%R emb_dim) (repeat 0%R emb_dim).

End LayerNrom.

Module GELU.

Definition forward_scalar (x : R) : R :=
  (0.5 * x * (1 + tanh (sqrt (2 / PI) * (x + 0.044715 * (x * x * x)))))%R.

Definition forward (x : tensor3) : tensor3 :=
  map (map (map forward_scalar)) x.

End GELU.

Module FeedForward.

(** [self.layers = nn.Sequential(Linear, GELU, Linear)] *)
Record t : Type := mk {
  layers_0 : nn.Linear.t;
  layers_2 : nn.Linear.t
}.

Definition forward (ff : t) (x : tensor3) : result tensor3 :=
  let* h := nn.Linear.forward (layers_0 ff) x in
  nn.Linear.forward (layers_2 ff) (GELU.forward h).

End FeedForward.

(** The hyper-parameters that the classes read from [cfg]. *)
Record Config : Type := mkConfig {
  vocab_size : nat;
  context_length : nat;
  emb_dim : nat;
  n_heads : nat;
  n_layers : nat;
  drop_rate : R;
  qkv_bias : bool
}.

Section Model.

Context {G : Type}.

(** [TransformerBlock]: the attention layer comes from the module
    [attention_mechanisms], and [nn.Dropout] from the tensor library; both
    may draw random numbers. *)
Record TransformerBlock : Type := mkBlock {
  att : tensor3 -> M G tensor3;
  ff : FeedForward.t;
  norm1 : LayerNrom.t;
  norm2 : LayerNrom.t;
  drop_shortcut : tensor3 -> M G tensor3
}.

Definition TransformerBlock_forward (blk : TransformerBlock) (x : tensor3)
    : M G tensor3 :=
  let shortcut := x in
  x <- lift (LayerNrom.forward (norm1 blk) x) ;;
  x <- att blk x ;;
  x <- drop_shortcut blk x ;;
  x <- lift (tadd x shortcut) ;;
  let shortcut := x in
  x <- lift (LayerNrom.forward (norm2 blk) x) ;;
  x <- lift (FeedForward.forward (ff blk) x) ;;
  x <- drop_shortcut blk x ;;
  lift (tadd x shortcut).

(** The block as the specification words it: [y + z] with
    [y = x + drop(att(norm1(x)))] and [z = drop(ff(norm2(y)))]. *)
Definition TransformerBlock_residual (blk : TransformerBlock) (x : tensor3)
    : M G tensor3 :=
  n1 <- lift (LayerNrom.forward (norm1 blk) x) ;;
  a <- att blk n1 ;;
  d <- drop_shortcut blk a ;;
  y <- lift (tadd x d) ;;
  n2 <- lift (LayerNrom.forward (norm2 blk) y) ;;
  f <- lift (FeedForward.forward (ff blk) n2) ;;
  z <- drop_shortcut blk f ;;
  lift (tadd y z).

(** [nn.Sequential] over the blocks. *)
Fixpoint Sequential_forward (blocks : list TransformerBlock) (x : tensor3)
    : M G tensor3 :=
  match blocks with
  | [] => ret x
  | blk :: rest =>
      y <- TransformerBlock_forward blk x ;;
      Sequential_forward rest y
  end.

Record GPTModel : Type := mkGPTModel {
  tok_emb : tensor2;
  pos_emb : tensor2;
  drop_emb : tensor3 -> M G tensor3;
  trf_blocks : list TransformerBlock;
  final_norm : LayerNrom.t;
  out_head : nn.Linear.t
}.

(** [in_idx.shape[1]] of a nested list: the length of its rows. *)
Definition seq_len_of (in_idx : tokens) : nat :=
  match in_idx with
  | [] => 0
  | row :: _ => length row
  end.

(** [torch.arange(n)] *)
Definition arange (n : nat) : list Z := map Z.of_nat (seq 0 n).

Definition GPTModel_forward (m : GPTModel) (in_idx : tokens) : M G tensor3 :=
  let seq_len := seq_len_of in_idx in
  tok_embeds <- lift (mapM (mapM (nn.Embedding.forward (tok_emb m))) in_idx) ;;
  pos_embeds <- lift (mapM (nn.Embedding.forward (pos_emb m)) (arange seq_len)) ;;
  x <- lift (tadd_rank2 tok_embeds pos_embeds) ;;
  x <- drop_emb m x ;;
  x <- Sequential_forward (trf_blocks m) x ;;
  x <- lift (LayerNrom.forward (final_norm m) x) ;;
  lift (nn.Linear.forward (out_head m) x).

(** What [__init__] establishes.  A layer received from outside keeps the
    shape [b x s x emb_dim] of its input for sequences that fit the context. *)
Definition keeps_shape (cfg : Config) (f : tensor3 -> M G tensor3) : Prop :=
  forall (b s : nat) (x : tensor3) (g : G),
    (s <= context_length cfg)%nat ->
    has_shape3 b s (emb_dim cfg) x ->
    exists y g', f x g = (Ok y, g') /\ has_shape3 b s (emb_dim cfg) y.

Definition LayerNrom_built (cfg : Config) (ln : LayerNrom.t) : Prop :=
  length (LayerNrom.scale ln) = emb_dim cfg /\
  length (LayerNrom.shift ln) = emb_dim cfg.

Definition FeedForward_built (cfg : Config) (f : FeedForward.t) : Prop :=
  nn.Linear.built (emb_dim cfg) (4 * emb_dim cfg) true (FeedForward.layers_0 f) /\
  nn.Linear.built (4 * emb_dim cfg) (emb_dim cfg) true (FeedForward.layers_2 f).

Definition TransformerBlock_built (cfg : Config) (blk : TransformerBlock) : Prop :=
  keeps_shape cfg (att blk) /\
  FeedForward_built cfg (ff blk) /\
  LayerNrom_built cfg (norm1 blk) /\
  LayerNrom_built cfg (norm2 blk) /\
  keeps_shape cfg (drop_shortcut blk).

Definition GPTModel_built (cfg : Config) (m : GPTModel) : Prop :=
  has_shape2 (vocab_size cfg) (emb_dim cfg) (tok_emb m) /\
  has_shape2 (context_length cfg) (emb_dim cfg) (pos_emb m) /\
  keeps_shape cfg (drop_emb m) /\
  length (trf_blocks m) = n_layers cfg /\
  Forall (TransformerBlock_built cfg) (trf_blocks m) /\
  LayerNrom_built cfg (final_norm m) /\
  nn.Linear.built (emb_dim cfg) (vocab_size cfg) false (out_head m).

(** All token ids lie in [[0, v)]. *)
Definition ids_in_vocab (v : nat) (in_idx : tokens) : Prop :=
  Forall (Forall (fun id => (0 <= id < Z.of_nat v)%Z)) in_idx.

End Model.

Section Generate.

Context {G : Type}.

(** Lines 144-147: from the logits of one model call to the extended
    sequence. *)
Definition append_greedy (idx : tokens) (logits : tensor3) : result tokens :=
  let* logits := select_last logits in
  let probas := map softmax logits in
  let* idx_next := argmax_keepdim probas in
  cat_dim1 idx idx_next.

(** Line 140: [idx[:, -context_size:]]. *)
Definition idx_cond (context_size : Z) (idx : tokens) : tokens :=
  map (py_slice_from (- context_size)) idx.

(** The loop body of [generate_text_simple]. *)
Definition generate_step (model : tokens -> M G tensor3) (context_size : Z)
    (idx : tokens) : M G tokens :=
  logits <- model (idx_cond context_size idx) ;;
  lift (append_greedy idx logits).

Fixpoint generate_loop (model : tokens -> M G tensor3) (context_size : Z)
    (n : nat) (idx : tokens) : M G tokens :=
  match n with
  | O => ret idx
  | S k =>
      idx' <- generate_step model context_size idx ;;
      generate_loop model context_size k idx'
  end.

Definition generate_text_simple (model : tokens -> M G tensor3) (idx : tokens)
    (max_new_tokens : Z) (context_size : Z) : M G tokens :=
  generate_loop model context_size (Z.to_nat max_new_tokens) idx.

(** The loop body as the specification words it: the model is conditioned on
    the last [context_size] tokens of every row. *)
Definition step_on_last_tokens (model : tokens -> M G tensor3) (context_size : Z)
    (idx : tokens) : M G tokens :=
  logits <- model (map (lastn (Z.to_nat context_size)) idx) ;;
  lift (append_greedy idx logits).

(** A model that answers every non-empty [b x s] batch of token ids with
    [b x s x v] logits. *)
Definition model_shaped (model : tokens -> M G tensor3) (v : nat) : Prop :=
  forall (b s : nat) (x : tokens) (g : G),
    (1 <= s)%nat -> has_shape2 b s x ->
    exists logits g', model x g = (Ok logits, g') /\ has_shape3 b s v logits.

End Generate.

(** A model used to run the loop on concrete inputs: whatever the context,
    token 1 gets the larger logit at every position. *)
Definition constant_model : tokens -> M unit tensor3 :=
  fun x => ret (map (map (fun _ => [0%R; 1%R])) x).

(** A one-block model of width one over two tokens, in evaluation mode
    (dropout is the identity) and with the identity in place of attention. *)
Definition tiny_config : Config := mkConfig 2 2 1 1 1 0%R false.

Definition identity_layer : tensor3 -> M unit tensor3 := fun x => ret x.

Definition tiny_block : TransformerBlock (G := unit) :=
  mkBlock identity_layer
    (FeedForward.mk
       (nn.Linear.mk 1 4 [[1]; [1]; [1]; [1]]%R (Some [0; 0; 0; 0]%R))
       (nn.Linear.mk 4 1 [[1; 1; 1; 1]]%R (Some [0%R])))
    (LayerNrom.init 1) (LayerNrom.init 1) identity_layer.

Definition tiny_model : GPTModel (G := unit) :=
  mkGPTModel [[1]; [2]]%R [[0]; [1]]%R identity_layer [tiny_block]
    (LayerNrom.init 1) (nn.Linear.mk 1 2 [[1]; [1]]%R None).

End GPT2.

(** ** flow.py *)

Module Flow.

(** *** Tensor operations used by the module *)

Definition l2_norm (v : vec) : R := sqrt (rsum (map (fun x => (x * x)%R) v)).

(** [F.normalize(x, dim=1)]: every row is divided by
    [max(l2_norm(row), 1e-12)]. *)
Definition normalize_row (v : vec) : vec :=
  map (fun x => (x / Rmax (l2_norm v) (1 / 1000000000000))%R) v.

Definition normalize (x : tensor2) : tensor2 := map normalize_row x.

(** [(~mask).float()] *)
Definition not_float (mask : list (list bool)) : tensor2 :=
  map (map (fun b : bool => if b then 0%R else 1%R)) mask.

(** [x.unsqueeze(-1)] and [x.unsqueeze(1)] on rank-2 tensors. *)
Definition unsqueeze_last (x : tensor2) : tensor3 := map (map (fun v => [v])) x.

Definition unsqueeze_1 (x : tensor2) : tensor3 := map (fun r => [r]) x.

(** [a * b] on rank-3 tensors. *)
Definition tmul (a b : tensor3) : result tensor3 := bzipM (bzipM vmul) a b.

(** [a + b] on rank-1 integer tensors. *)
Definition zadd (a b : list Z) : result (list Z) :=
  bzipM (fun x y => Ok (x + y)%Z) a b.

(** [torch.clamp(token, min=0)] *)
Definition clamp_min0 (token : tokens) : tokens := map (map (Z.max 0)) token.

(** [x.int()]: truncation towards zero. *)
Definition Rtrunc (x : R) : Z :=
  if Rlt_dec x 0 then (- Int_part (- x))%Z else Int_part x.

(** [x.shape[1]] of a nested list. *)
Definition shape1 {A : Type} (x : list (list A)) : nat :=
  match x with
  | [] => 0
  | r :: _ => length r
  end.

(** [t.max()] of a rank-1 integer tensor. *)
Definition zmax (l : list Z) : result Z :=
  match l with
  | [] => Err RuntimeError
  | x :: t => Ok (fold_left Z.max t x)
  end.

(** [torch.zeros([1, n, c])] *)
Definition zeros (n : Z) (c : nat) : result tensor3 :=
  if (n <? 0)%Z then Err RuntimeError
  else Ok [repeat (repeat 0%R c) (Z.to_nat n)].

(** The number of elements selected by Python's [l[:stop]]. *)
Definition py_slice_stop (stop : Z) (len : nat) : nat :=
  Z.to_nat (if (stop <? 0)%Z then Z.max (stop + Z.of_nat len) 0
            else Z.min stop (Z.of_nat len)).

(** Broadcasting of [src] to [k] rows of [c] columns on assignment. *)
Definition expand_row (c : nat) (r : vec) : result vec :=
  if Nat.eqb (length r) c then Ok r
  else match r with
       | [x] => Ok (repeat x c)
       | _ => Err RuntimeError
       end.

Definition expand (k c : nat) (src : tensor2) : result tensor2 :=
  let* rows := mapM (expand_row c) src in
  if Nat.eqb (length rows) k then Ok rows
  else match rows with
       | [r] => Ok (repeat r k)
       | _ => Err RuntimeError
       end.

Fixpoint set_nth {A : Type} (i : nat) (x : A) (l : list A) : list A :=
  match l, i with
  | [], _ => []
  | _ :: t, O => x :: t
  | y :: t, S i' => y :: set_nth i' x t
  end.

(** [conds[i, :j] = src] on a rank-3 tensor whose last dimension is [c]. *)
Definition assign_prefix (c : nat) (conds : tensor3) (i : nat) (j : Z)
    (src : tensor2) : result tensor3 :=
  match nth_error conds i with
  | None => Err IndexError
  | Some block =>
      let k := py_slice_stop j (length block) in
      let* new := expand k c src in
      Ok (set_nth i (new ++ skipn k block) conds)
  end.

(** Lines 130-131: [for i, j in enumerate(prompt_feat_len):
    conds[i, :j] = prompt_feat[i]]. *)
Fixpoint fill_conds (c : nat) (prompt_feat : tensor3) (conds : tensor3)
    (i : nat) (lens : list Z) : result tensor3 :=
  match lens with
  | [] => Ok conds
  | j :: rest =>
      match nth_error prompt_feat i with
      | None => Err IndexError
      | Some src =>
          let* conds' := assign_prefix c conds i j src in
          fill_conds c prompt_feat conds' (S i) rest
      end
  end.

(** [x.transpose(1, 2)] on a rank-3 tensor whose last dimension is [c]. *)
Definition transpose_cols (c : nat) (m : tensor2) : tensor2 :=
  map (fun j => map (fun r => nth j r 0%R) m) (seq 0 c).

Definition transpose12 (c : nat) (x : tensor3) : tensor3 :=
  map (transpose_cols c) x.

(** [x[:, :, p:]] *)
Definition drop_frames (p : nat) (x : tensor3) : tensor3 :=
  map (map (skipn p)) x.

Section Module.

Context {G : Type}.

(** [make_pad_mask] is imported from [cosyvoice.utils.mask]. *)
Variable make_pad_mask : list Z -> result (list (list bool)).

(** Python's [random.random()] and [random.randint(a, b)], and
    [F.interpolate(x.unsqueeze(1), size=(t, c), mode="nearest").squeeze(1)]. *)
Variable random_random : M G R.
Variable random_randint : Z -> Z -> M G Z.
Variable interpolate_nearest : tensor3 -> nat -> nat -> result tensor3.

(** The training batch: the keys that [forward] reads. *)
Record Batch : Type := mkBatch {
  speech_token : tokens;
  speech_token_len : list Z;
  speech_feat : tensor3;
  speech_feat_len : list Z;
  batch_embedding : tensor2
}.

(** [MaskedDiffWithXvec]: the encoder, the length regulator and the decoder
    are handed to the constructor. *)
Record MaskedDiffWithXvec : Type := mk {
  input_size : nat;
  output_size : nat;
  vocab_size : nat;
  input_frame_rate : R;
  only_mask_loss : bool;
  input_embedding : tensor2;
  spk_embed_affine_layer : nn.Linear.t;
  encoder : tensor3 -> list Z -> M G (tensor3 * tensor3);
  encoder_proj : nn.Linear.t;
  decoder : tensor3 -> tensor3 -> tensor2 -> tensor3 -> nat -> M G tensor3;
  decoder_compute_loss :
    tensor3 -> tensor3 -> tensor3 -> tensor2 -> tensor3 -> M G R;
  length_regulator : tensor3 -> list Z -> M G (tensor3 * list Z)
}.

(** Lines 74 and 119:
    [self.input_embedding(torch.clamp(token, min=0))]. *)
Definition embed_tokens (m : MaskedDiffWithXvec) (token : tokens)
    : result tensor3 :=
  mapM (mapM (nn.Embedding.forward (input_embedding m))) (clamp_min0 token).

(** Lines 74 and 119 in full: the embedded tokens times the padding mask. *)
Definition embed_and_mask (m : MaskedDiffWithXvec) (token : tokens)
    (mask : tensor3) : result tensor3 :=
  let* e := embed_tokens m token in
  tmul e mask.

(** Lines 67-68 and 113-114: the xvec projection. *)
Definition project_speaker (m : MaskedDiffWithXvec) (embedding : tensor2)
    : result tensor2 :=
  let embedding := normalize embedding in
  mapM (nn.Linear.forward_row (spk_embed_affine_layer m)) embedding.

(** Lines 128-131: the conditioning frames. *)
Definition make_conds (m : MaskedDiffWithXvec) (feat_len : list Z)
    (prompt_feat : tensor3) (prompt_feat_len : list Z) : result tensor3 :=
  let* n := zmax feat_len in
  let* conds := zeros n (output_size m) in
  if Nat.eqb (shape1 prompt_feat) 0 then Ok conds
  else fill_conds (output_size m) prompt_feat conds 0 prompt_feat_len.

(** Line 124 *)
Definition feat_len_of (m : MaskedDiffWithXvec) (token_len : list Z) : list Z :=
  map (fun tl => Rtrunc (IZR tl / input_frame_rate m * 22050 / 256)%R) token_len.

(** [conds[i, :index] = feat[i, :index]] where [conds] has the shape of
    [feat]. *)
Definition copy_prefix (feat conds : tensor3) (i : nat) (index : Z)
    : result tensor3 :=
  match nth_error feat i, nth_error conds i with
  | Some src, Some block =>
      let k := py_slice_stop index (length block) in
      Ok (set_nth i (firstn k src ++ skipn k block) conds)
  | _, _ => Err IndexError
  end.

(** Lines 84-88 *)
Fixpoint random_conds (feat conds : tensor3) (i : nat) (lens : list Z)
    : M G tensor3 :=
  match lens with
  | [] => ret conds
  | j :: rest =>
      r <- random_random ;;
      if Rlt_dec r 0.5 then random_conds feat conds (S i) rest
      else
        index <- random_randint 0 (Rtrunc (0.8 * IZR j)) ;;
        conds' <- lift (copy_prefix feat conds i index) ;;
        random_conds feat conds' (S i) rest
  end.

Definition forward (m : MaskedDiffWithXvec) (batch : Batch) : M G R :=
  let token := speech_token batch in
  let token_len := speech_token_len batch in
  let feat := speech_feat batch in
  let feat_len := speech_feat_len batch in
  let embedding := batch_embedding batch in
  (* xvec projection *)
  embedding <- lift (project_speaker m embedding) ;;
  (* concat text and prompt_text *)
  mask <- lift (make_pad_mask token_len) ;;
  let mask := unsqueeze_last (not_float mask) in
  token <- lift (embed_and_mask m token mask) ;;
  (* text encode *)
  hh <- encoder m token token_len ;;
  h <- lift (nn.Linear.forward (encoder_proj m) (fst hh)) ;;
  hh <- length_regulator m h feat_len ;;
  let h := fst hh in
  (* get conditions *)
  let conds := map (map (map (fun _ : R => 0%R))) feat in
  conds <- random_conds feat conds 0 feat_len ;;
  let conds := transpose12 (shape1 (hd [] conds)) conds in
  mask <- lift (make_pad_mask feat_len) ;;
  let mask := not_float mask in
  feat <- lift (interpolate_nearest feat (shape1 h) (shape1 (hd [] h))) ;;
  decoder_compute_loss m
    (transpose12 (shape1 (hd [] feat)) feat) (unsqueeze_1 mask)
    (transpose12 (shape1 (hd [] h)) h) embedding conds.

(** What [__init__] establishes for the layers it creates itself, for a
    speaker embedding of width [spk_embed_dim] and an encoder whose
    [output_size()] is [enc_out]. *)
Definition built (spk_embed_dim enc_out : nat) (m : MaskedDiffWithXvec) : Prop :=
  has_shape2 (vocab_size m) (input_size m) (input_embedding m) /\
  nn.Linear.built spk_embed_dim (output_size m) true (spk_embed_affine_layer m) /\
  nn.Linear.built enc_out (output_size m) true (encoder_proj m).

(** A prompt that fits: either it is empty, or it is one clip of [c]
    channels whose stated length is its number of frames and does not
    exceed the [fl] frames to be generated. *)
Definition valid_prompt (c : nat) (fl : Z) (prompt_feat : tensor3)
    (prompt_feat_len : list Z) : Prop :=
  shape1 prompt_feat = 0%nat \/
  exists pf,
    prompt_feat = [pf] /\
    prompt_feat_len = [Z.of_nat (length pf)] /\
    (Z.of_nat (length pf) <= fl)%Z /\
    Forall (has_shape1 c) pf.

(** The shapes that the comments of [inference] record for the layers
    handed to the constructor: the encoder keeps the sequence length and
    yields [enc_out] channels, the length regulator stretches a non-empty
    sequence to the requested number of frames and keeps the channels, and
    the decoder returns a tensor of the shape of [mu]. *)
Definition layers_shaped (enc_out : nat) (m : MaskedDiffWithXvec) : Prop :=
  (forall x lens g b s,
      has_shape3 b s (input_size m) x ->
      exists h hl g',
        encoder m x lens g = (Ok (h, hl), g') /\ has_shape3 b s enc_out h) /\
  (forall h fl g b s,
      (1 <= s)%nat -> (1 <= fl)%Z ->
      has_shape3 b s (output_size m) h ->
      exists h2 hl2 g',
        length_regulator m h [fl] g = (Ok (h2, hl2), g') /\
        has_shape3 b (Z.to_nat fl) (output_size m) h2) /\
  (forall mu mask spks cond n g b c f,
      has_shape3 b c f mu ->
      exists feat g',
        decoder m mu mask spks cond n g = (Ok feat, g') /\
        has_shape3 b c f feat).

(** [make_pad_mask] of one length [n] is a [1 x n] mask. *)
Definition pad_mask_shaped : Prop :=
  forall n, (0 <= n)%Z ->
    exists mask, make_pad_mask [n] = Ok mask /\ has_shape2 1 (Z.to_nat n) mask.

(** The layers handed to the constructor, and the mask helper, raise no
    [AssertionError] of their own. *)
Definition modules_never_assert (m : MaskedDiffWithXvec) : Prop :=
  (forall lens, no_assert (make_pad_mask lens)) /\
  (forall x lens, never_asserts (encoder m x lens)) /\
  (forall h lens, never_asserts (length_regulator m h lens)) /\
  (forall mu mask spks cond n, never_asserts (decoder m mu mask spks cond n)).

Definition inference (m : MaskedDiffWithXvec)
    (token : tokens) (token_len : list Z)
    (prompt_token : tokens) (prompt_token_len : list Z)
    (prompt_feat : tensor3) (prompt_feat_len : list Z)
    (embedding : tensor2) : M G tensor3 :=
  _ <- lift (if Nat.eqb (length token) 1 then Ok tt else Err AssertionError) ;;
  (* xvec projection *)
  embedding <- lift (project_speaker m embedding) ;;
  (* concat text and prompt_text *)
  token <- lift (cat_dim1 prompt_token token) ;;
  token_len <- lift (zadd prompt_token_len token_len) ;;
  mask <- lift (make_pad_mask token_len) ;;
  let mask := unsqueeze_last (not_float mask) in
  token <- lift (embed_and_mask m token mask) ;;
  (* text encode *)
  hh <- encoder m token token_len ;;
  h <- lift (nn.Linear.forward (encoder_proj m) (fst hh)) ;;
  let feat_len := feat_len_of m token_len in
  hh <- length_regulator m h feat_len ;;
  let h := fst hh in
  (* get conditions *)
  conds <- lift (make_conds m feat_len prompt_feat prompt_feat_len) ;;
  let conds := transpose12 (output_size m) conds in
  mask <- lift (make_pad_mask feat_len) ;;
  let mask := not_float mask in
  feat <- decoder m (transpose12 (shape1 (hd [] h)) h) (unsqueeze_1 mask)
                  embedding conds 10 ;;
  if Nat.eqb (shape1 prompt_feat) 0 then ret feat
  else ret (drop_frames (shape1 prompt_feat) feat).

End Module.

(** Concrete layers for running the module on small inputs: a padding
    mask that marks position [i] of row [b] when [i >= lens[b]], an
    encoder that returns its input, a regulator that repeats the first
    frame, and a decoder that returns [mu]. *)
Definition pad_mask (lens : list Z) : result (list (list bool)) :=
  let* mx := zmax lens in
  if (mx <? 0)%Z then Err RuntimeError
  else Ok (map (fun l => map (fun i => (l <=? Z.of_nat i)%Z)
                             (seq 0 (Z.to_nat mx))) lens).

Definition echo_encoder : tensor3 -> list Z -> M unit (tensor3 * tensor3) :=
  fun x _ => ret (x, []).

Definition repeat_regulator : tensor3 -> list Z -> M unit (tensor3 * list Z) :=
  fun h lens =>
    ret (map (fun frames => repeat (hd [] frames) (Z.to_nat (hd 0%Z lens))) h,
         lens).

Definition echo_decoder
    : tensor3 -> tensor3 -> tensor2 -> tensor3 -> nat -> M unit tensor3 :=
  fun mu _ _ _ _ => ret mu.

Definition zero_loss
    : tensor3 -> tensor3 -> tensor3 -> tensor2 -> tensor3 -> M unit R :=
  fun _ _ _ _ _ => ret 0%R.

Definition echo_model : MaskedDiffWithXvec (G := unit) :=
  mk 1 1 2 50%R true [[1]; [2]]%R
     (nn.Linear.mk 1 1 [[1]]%R (Some [0%R]))
     echo_encoder
     (nn.Linear.mk 1 1 [[1]]%R (Some [0%R]))
     echo_decoder zero_loss repeat_regulator.

End Flow.

(** * Properties *)

(** ** Results and lists *)

Lemma mapM_length {A B : Type} (f : A -> result B) (l : list A) (l' : list B) :
  mapM f l = Ok l' -> length l' = length l.
Proof.
  revert l'; induction l as [|x t IH]; intros l' H; simpl in H.
  - inversion H; reflexivity.
  - destruct (f x) as [y|e]; simpl in H; [|discriminate].
    destruct (mapM f t) as [ys|e]; simpl in H; [|discriminate].
    inversion H; subst; simpl. f_equal. apply IH; reflexivity.
Qed.

Lemma mapM_nth_error {A B : Type} (f : A -> result B) (l : list A) (l' : list B) :
  mapM f l = Ok l' ->
  forall i x, nth_error l i = Some x ->
  exists y, f x = Ok y /\ nth_error l' i = Some y.
Proof.
  revert l'; induction l as [|x t IH]; intros l' H i a Hi.
  - destruct i; discriminate.
  - simpl in H.
    destruct (f x) as [y|e] eqn:Hf; simpl in H; [|discriminate].
    destruct (mapM f t) as [ys|e] eqn:Ht; simpl in H; [|discriminate].
    inversion H; subst.
    destruct i as [|i]; simpl in Hi.
    + inversion Hi; subst. exists y; split; [assumption|reflexivity].
    + destruct (IH ys eq_refl i a Hi) as [z [Hz1 Hz2]].
      exists z; split; assumption.
Qed.

Lemma mapM_Forall_ok {A B : Type} (f : A -> result B) (P : B -> Prop) (l : list A) :
  Forall (fun x => exists y, f x = Ok y /\ P y) l ->
  exists l', mapM f l = Ok l' /\ Forall P l'.
Proof.
  induction 1 as [|x t [y [Hy Py]] _ [ys [Hys Pys]]].
  - exists []; split; [reflexivity|constructor].
  - exists (y :: ys); simpl. rewrite Hy, Hys; simpl.
    split; [reflexivity|constructor; assumption].
Qed.

Lemma mapM_pure {A B : Type} (f : A -> B) (l : list A) :
  mapM (fun x => Ok (f x)) l = Ok (map f l).
Proof.
  induction l as [|x t IH]; simpl; [reflexivity|].
  rewrite IH; reflexivity.
Qed.

Lemma nth_error_ext {A : Type} (l1 l2 : list A) :
  (forall i, nth_error l1 i = nth_error l2 i) -> l1 = l2.
Proof.
  revert l2; induction l1 as [|x t IH]; intros [|y u] H.
  - reflexivity.
  - specialize (H 0%nat); discriminate.
  - specialize (H 0%nat); discriminate.
  - pose proof (H 0%nat) as H0; simpl in H0; inversion H0; subst.
    f_equal. apply IH. intro i. exact (H (S i)).
Qed.

Lemma cat_dim1_spec {A : Type} (a b c : list (list A)) :
  cat_dim1 a b = Ok c ->
  length c = length a /\ length b = length a /\
  forall i row, nth_error a i = Some row ->
    exists t, nth_error b i = Some t /\ nth_error c i = Some (row ++ t).
Proof.
  unfold cat_dim1. destruct (Nat.eqb (length a) (length b)) eqn:E; [|discriminate].
  apply Nat.eqb_eq in E. intro H; inversion H; subst; clear H.
  rewrite length_map, length_combine.
  split; [lia|]. split; [lia|].
  intros i row Hi.
  assert (Hlt : (i < length b)%nat).
  { rewrite <- E. apply nth_error_Some. rewrite Hi; discriminate. }
  destruct (nth_error b i) as [t|] eqn:Hb.
  - exists t; split; [reflexivity|].
    rewrite nth_error_map.
    assert (Hc : nth_error (combine a b) i = Some (row, t)).
    { clear - Hi Hb. revert b i Hi Hb.
      induction a as [|x a IH]; intros [|y b] [|i] Hi Hb; simpl in *; try discriminate.
      - inversion Hi; inversion Hb; reflexivity.
      - apply IH; assumption. }
    rewrite Hc; reflexivity.
  - apply nth_error_None in Hb. lia.
Qed.

Lemma cat_dim1_ok {A : Type} (a b : list (list A)) :
  length a = length b ->
  cat_dim1 a b = Ok (map (fun p => fst p ++ snd p) (combine a b)).
Proof.
  intro H. unfold cat_dim1. rewrite H, Nat.eqb_refl. reflexivity.
Qed.

Lemma mapM_nth_error_inv {A B : Type} (f : A -> result B) (l : list A) (l' : list B) :
  mapM f l = Ok l' ->
  forall i y, nth_error l' i = Some y ->
  exists x, nth_error l i = Some x /\ f x = Ok y.
Proof.
  intros H i y Hy.
  pose proof (mapM_length _ _ _ H) as Hlen.
  destruct (nth_error l i) as [x|] eqn:Hx.
  - destruct (mapM_nth_error _ _ _ H _ _ Hx) as [y' [Hf Hy']].
    rewrite Hy in Hy'; inversion Hy'; subst. exists x; split; [reflexivity|assumption].
  - apply nth_error_None in Hx.
    assert (nth_error l' i <> None) by (rewrite Hy; discriminate).
    apply nth_error_Some in H0. lia.
Qed.

Lemma bind_ok_inv {G A B : Type} (c : M G A) (k : A -> M G B) g b g' :
  bind c k g = (Ok b, g') ->
  exists a g1, c g = (Ok a, g1) /\ k a g1 = (Ok b, g').
Proof.
  unfold bind. destruct (c g) as [[a|e] g1]; intro H.
  - exists a, g1; split; [reflexivity|assumption].
  - discriminate.
Qed.

Lemma bind_ok {G A B : Type} (c : M G A) (k : A -> M G B) g a g1 :
  c g = (Ok a, g1) -> bind c k g = k a g1.
Proof. unfold bind; intro H; rewrite H; reflexivity. Qed.

(** ** Python slicing *)

Lemma py_slice_from_last {A : Type} (c : Z) (l : list A) :
  (1 <= c)%Z -> py_slice_from (- c) l = lastn (Z.to_nat c) l.
Proof.
  intro Hc. unfold py_slice_from, lastn.
  destruct (Z.ltb_spec (- c) 0) as [_|H]; [|lia].
  f_equal. lia.
Qed.

Lemma py_slice_from_zero {A : Type} (l : list A) : py_slice_from (- 0) l = l.
Proof.
  unfold py_slice_from; simpl.
  replace (Z.to_nat (Z.min 0 (Z.of_nat (length l)))) with 0%nat by lia.
  reflexivity.
Qed.

Lemma lastn_length {A : Type} (c : nat) (l : list A) :
  length (lastn c l) = Nat.min c (length l).
Proof. unfold lastn. rewrite length_skipn. lia. Qed.

Lemma lastn_suffix {A : Type} (c : nat) (l : list A) :
  exists front, l = front ++ lastn c l.
Proof.
  exists (firstn (length l - c) l). unfold lastn.
  symmetry; apply firstn_skipn.
Qed.

(** ** The generation loop *)

Section GenerateFacts.

Context {G : Type}.
Variable model : tokens -> M G tensor3.
Variable context_size : Z.

Lemma generate_step_inv idx g idx' g' :
  GPT2.generate_step model context_size idx g = (Ok idx', g') ->
  exists logits,
    model (GPT2.idx_cond context_size idx) g = (Ok logits, g') /\
    GPT2.append_greedy idx logits = Ok idx'.
Proof.
  unfold GPT2.generate_step. intro H.
  apply bind_ok_inv in H. destruct H as [logits [g1 [Hm Hl]]].
  unfold lift in Hl. inversion Hl; subst.
  exists logits; split; [assumption|reflexivity].
Qed.

Lemma append_greedy_spec idx logits idx' :
  GPT2.append_greedy idx logits = Ok idx' ->
  length idx' = length idx /\ length logits = length idx /\
  forall b row, nth_error idx b = Some row ->
    exists seq i,
      nth_error logits b = Some seq /\ seq <> [] /\
      argmax (softmax (last seq [])) = Ok i /\
      nth_error idx' b = Some (row ++ [Z.of_nat i]).
Proof.
  unfold GPT2.append_greedy. intro H.
  destruct (select_last logits) as [lasts|e] eqn:Hsel; simpl in H; [|discriminate].
  destruct (argmax_keepdim (map softmax lasts)) as [nxt|e] eqn:Harg; simpl in H;
    [|discriminate].
  destruct (cat_dim1_spec _ _ _ H) as [Hlen [Hlen' Hrows]].
  pose proof (mapM_length _ _ _ Hsel) as L1.
  pose proof (mapM_length _ _ _ Harg) as L2. rewrite length_map in L2.
  split; [assumption|]. split; [lia|].
  intros b row Hb.
  destruct (Hrows b row Hb) as [t [Ht Hc]].
  destruct (mapM_nth_error_inv _ _ _ Harg _ _ Ht) as [p [Hp Hi]].
  rewrite nth_error_map in Hp.
  destruct (nth_error lasts b) as [lv|] eqn:Hlv; simpl in Hp; [|discriminate].
  inversion Hp; subst p; clear Hp.
  destruct (mapM_nth_error_inv _ _ _ Hsel _ _ Hlv) as [seq [Hseq Hlast]].
  destruct (argmax (softmax lv)) as [i|e] eqn:Hai; simpl in Hi; [|discriminate].
  inversion Hi; subst t; clear Hi.
  exists seq, i. split; [assumption|].
  destruct seq as [|s0 seq']; [discriminate|].
  inversion Hlast; subst lv.
  repeat split; try assumption. discriminate.
Qed.

Lemma generate_loop_add a b idx g :
  GPT2.generate_loop model context_size (a + b) idx g =
  bind (GPT2.generate_loop model context_size a idx)
       (GPT2.generate_loop model context_size b) g.
Proof.
  revert idx g; induction a as [|a IH]; intros idx g; simpl.
  - reflexivity.
  - unfold bind.
    destruct (GPT2.generate_step model context_size idx g) as [[s|e] g1];
      [|reflexivity].
    rewrite IH. reflexivity.
Qed.

Lemma generate_loop_one idx g :
  GPT2.generate_loop model context_size 1 idx g =
  GPT2.generate_step model context_size idx g.
Proof.
  simpl. unfold bind, ret.
  destruct (GPT2.generate_step model context_size idx g) as [[s|e] g1]; reflexivity.
Qed.

(** Every iteration of a successful run is one application of the loop body
    to the state that the earlier iterations produced. *)
Lemma generate_loop_iterations n idx g out g' :
  GPT2.generate_loop model context_size n idx g = (Ok out, g') ->
  forall k, (k < n)%nat ->
  exists s g1 s' g2,
    GPT2.generate_loop model context_size k idx g = (Ok s, g1) /\
    GPT2.generate_step model context_size s g1 = (Ok s', g2) /\
    GPT2.generate_loop model context_size (S k) idx g = (Ok s', g2).
Proof.
  intros H k Hk.
  replace n with (k + (1 + (n - k - 1)))%nat in H by lia.
  rewrite generate_loop_add in H.
  apply bind_ok_inv in H. destruct H as [s [g1 [Hs H]]].
  rewrite generate_loop_add in H.
  apply bind_ok_inv in H. destruct H as [s' [g2 [Hs' _]]].
  rewrite generate_loop_one in Hs'.
  exists s, g1, s', g2. split; [assumption|]. split; [assumption|].
  replace (S k) with (k + 1)%nat by lia.
  rewrite generate_loop_add. erewrite bind_ok; [|exact Hs].
  rewrite generate_loop_one. assumption.
Qed.

(** The rows only grow at the end: one token per iteration. *)
Lemma generate_loop_rows n idx g out g' :
  GPT2.generate_loop model context_size n idx g = (Ok out, g') ->
  length out = length idx /\
  forall b row, nth_error idx b = Some row ->
    exists gen, nth_error out b = Some (row ++ gen) /\ length gen = n.
Proof.
  revert idx g; induction n as [|n IH]; intros idx g H; simpl in H.
  - unfold ret in H; inversion H; subst. split; [reflexivity|].
    intros b row Hb. exists []. rewrite app_nil_r. split; [assumption|reflexivity].
  - apply bind_ok_inv in H. destruct H as [s [g1 [Hs H]]].
    apply generate_step_inv in Hs. destruct Hs as [logits [_ Happ]].
    destruct (append_greedy_spec _ _ _ Happ) as [L [_ Hrows]].
    destruct (IH _ _ H) as [L' Hrows'].
    split; [lia|].
    intros b row Hb.
    destruct (Hrows b row Hb) as [seq [i [_ [_ [_ Hs']]]]].
    destruct (Hrows' b _ Hs') as [gen [Hout Hgen]].
    exists (Z.of_nat i :: gen). rewrite <- app_assoc in Hout. simpl in Hout.
    split; [assumption|simpl; lia].
Qed.

End GenerateFacts.

(** ** [argmax] and [softmax] *)

Lemma argmax_from_first_max (v pre : vec) (bi : nat) :
  is_first_max pre bi ->
  is_first_max (pre ++ v) (argmax_from bi (nth bi pre 0%R) (length pre) v).
Proof.
  revert pre bi; induction v as [|x t IH]; intros pre bi Hmax; simpl.
  - rewrite app_nil_r; assumption.
  - destruct Hmax as [Hlt [Hge Hfirst]].
    replace (pre ++ x :: t) with ((pre ++ [x]) ++ t)
      by (rewrite <- app_assoc; reflexivity).
    assert (Hlen : length (pre ++ [x]) = S (length pre))
      by (rewrite length_app; simpl; lia).
    assert (Hx : nth (length pre) (pre ++ [x]) 0%R = x).
    { rewrite app_nth2 by lia. rewrite Nat.sub_diag; reflexivity. }
    destruct (Rlt_dec (nth bi pre 0%R) x) as [Hbx|Hbx].
    + assert (Hnew : is_first_max (pre ++ [x]) (length pre)).
      { split; [lia|]. rewrite Hx. split.
        - intros j Hj. rewrite Hlen in Hj.
          destruct (Nat.eq_dec j (length pre)) as [->|Hne].
          + rewrite Hx; lra.
          + rewrite app_nth1 by lia. specialize (Hge j ltac:(lia)). lra.
        - intros j Hj. rewrite app_nth1 by lia. specialize (Hge j Hj). lra. }
      pose proof (IH _ _ Hnew) as H. rewrite Hx, Hlen in H. exact H.
    + assert (Hold : is_first_max (pre ++ [x]) bi).
      { split; [lia|]. rewrite (app_nth1 pre [x] 0%R Hlt). split.
        - intros j Hj. rewrite Hlen in Hj.
          destruct (Nat.eq_dec j (length pre)) as [->|Hne].
          + rewrite Hx; lra.
          + rewrite app_nth1 by lia. apply Hge; lia.
        - intros j Hj. rewrite app_nth1 by lia. apply Hfirst; assumption. }
      pose proof (IH _ _ Hold) as H.
      rewrite (app_nth1 pre [x] 0%R Hlt), Hlen in H. exact H.
Qed.

Lemma argmax_first_max (v : vec) (i : nat) :
  argmax v = Ok i -> is_first_max v i.
Proof.
  destruct v as [|x t]; simpl; intro H; [discriminate|].
  inversion H; subst; clear H.
  apply (argmax_from_first_max t [x] 0).
  split; [simpl; lia|]. split.
  - intros j Hj. simpl in Hj. replace j with 0%nat by lia. simpl; lra.
  - intros j Hj; lia.
Qed.

Lemma argmax_from_map (f : R -> R) (v : vec) (bi i : nat) (best : R) :
  (forall x y, (x < y)%R <-> (f x < f y)%R) ->
  argmax_from bi (f best) i (map f v) = argmax_from bi best i v.
Proof.
  intro Hf. revert bi i best; induction v as [|x t IH]; intros bi i best; simpl.
  - reflexivity.
  - destruct (Rlt_dec (f best) (f x)) as [H1|H1];
      destruct (Rlt_dec best x) as [H2|H2].
    + apply IH.
    + exfalso; apply H2. apply (proj2 (Hf best x)); exact H1.
    + exfalso; apply H1. apply (proj1 (Hf best x)); exact H2.
    + apply IH.
Qed.

Lemma rsum_exp_pos (v : vec) : v <> [] -> (0 < rsum (map exp v))%R.
Proof.
  assert (Hnn : forall w : vec, (0 <= rsum (map exp w))%R).
  { induction w as [|y w IHw]; simpl; [lra|].
    pose proof (exp_pos y); lra. }
  destruct v as [|x t]; intro H; [contradiction|]. simpl.
  pose proof (exp_pos x). pose proof (Hnn t). lra.
Qed.

(** Softmax keeps the order of the entries, so the first maximal
    probability sits where the first maximal logit does. *)
Lemma argmax_softmax (v : vec) : argmax (softmax v) = argmax v.
Proof.
  destruct v as [|x t]; [reflexivity|].
  unfold softmax.
  set (total := rsum (map exp (x :: t))).
  assert (Ht : (0 < total)%R) by (apply rsum_exp_pos; discriminate).
  simpl. f_equal.
  apply (argmax_from_map (fun y => (exp y / total)%R)).
  intros a b; split; intro H.
  - apply Rmult_lt_compat_r; [apply Rinv_0_lt_compat; assumption|].
    apply exp_increasing; assumption.
  - apply exp_lt_inv.
    apply (Rmult_lt_reg_r (/ total)); [apply Rinv_0_lt_compat; assumption|].
    exact H.
Qed.

Lemma softmax_length (v : vec) : length (softmax v) = length v.
Proof. unfold softmax; apply length_map. Qed.

(** ** Shapes along the generation loop *)

Lemma Forall_combine {A B : Type} (P : A -> Prop) (Q : B -> Prop)
    (a : list A) (b : list B) :
  Forall P a -> Forall Q b ->
  Forall (fun p => P (fst p) /\ Q (snd p)) (combine a b).
Proof.
  intro Ha; revert b; induction Ha as [|x a Hx Ha IH]; intros b Hb; simpl.
  - constructor.
  - destruct Hb as [|y b Hy Hb]; constructor.
    + split; assumption.
    + apply IH; assumption.
Qed.

Lemma last_Forall {A : Type} (P : A -> Prop) (l : list A) (d : A) :
  l <> [] -> Forall P l -> P (last l d).
Proof.
  intros Hne Hl.
  destruct (exists_last Hne) as [front [x ->]].
  rewrite last_last. apply Forall_app in Hl. destruct Hl as [_ Hx].
  inversion Hx; assumption.
Qed.

Lemma idx_cond_last (context_size : Z) (idx : tokens) :
  (1 <= context_size)%Z ->
  GPT2.idx_cond context_size idx = map (lastn (Z.to_nat context_size)) idx.
Proof.
  intro Hc. unfold GPT2.idx_cond. apply map_ext.
  intro row. apply py_slice_from_last; assumption.
Qed.

Lemma lastn_shape (c b s : nat) (idx : tokens) :
  has_shape2 b s idx -> has_shape2 b (Nat.min c s) (map (lastn c) idx).
Proof.
  intros [Hb Hrows]. split; [rewrite length_map; assumption|].
  apply Forall_map. eapply Forall_impl; [|exact Hrows].
  intros row Hrow. unfold has_shape1 in *. rewrite lastn_length, Hrow. reflexivity.
Qed.

Lemma append_greedy_total (b t s v : nat) (idx : tokens) (logits : tensor3) :
  (1 <= s)%nat -> (1 <= v)%nat ->
  has_shape2 b t idx -> has_shape3 b s v logits ->
  exists idx', GPT2.append_greedy idx logits = Ok idx' /\ has_shape2 b (t + 1) idx'.
Proof.
  intros Hs Hv [Hb Hrows] [Hlb Hl].
  unfold GPT2.append_greedy.
  destruct (mapM_Forall_ok
              (fun seq : tensor2 => match seq with
                         | [] => Err IndexError
                         | _ :: _ => Ok (last seq [])
                         end)
              (fun lv : vec => length lv = v) logits) as [lasts [Hsel Hlasts]].
  { eapply Forall_impl; [|exact Hl].
    intros seq [Hlen Hseq]. destruct seq as [|s0 seq']; [simpl in Hlen; lia|].
    eexists; split; [reflexivity|].
    apply (last_Forall (has_shape1 v)); [discriminate|assumption]. }
  unfold select_last. rewrite Hsel; simpl.
  destruct (mapM_Forall_ok
              (fun p : vec => let* i := argmax p in Ok [Z.of_nat i])
              (fun tk : list Z => length tk = 1%nat) (map softmax lasts))
    as [nxt [Harg Hnxt]].
  { apply Forall_map. eapply Forall_impl; [|exact Hlasts].
    intros lv Hlv. cbv beta in Hlv. pose proof (softmax_length lv) as Hsl.
    destruct (softmax lv) as [|p0 ps] eqn:E; [simpl in Hsl; lia|].
    simpl. eexists; split; reflexivity. }
  unfold argmax_keepdim. rewrite Harg; simpl.
  pose proof (mapM_length _ _ _ Hsel) as L1.
  pose proof (mapM_length _ _ _ Harg) as L2. rewrite length_map in L2.
  rewrite cat_dim1_ok by lia.
  eexists; split; [reflexivity|].
  split.
  - rewrite length_map, length_combine. lia.
  - apply Forall_map.
    eapply Forall_impl; [|exact (Forall_combine _ _ _ _ Hrows Hnxt)].
    intros [row tk] [Hrow Htk]; simpl in *.
    unfold has_shape1 in *. rewrite length_app. lia.
Qed.

Section GenerateShapes.

Context {G : Type}.
Variable model : tokens -> M G tensor3.
Variable context_size : Z.
Variable v : nat.
Hypothesis model_ok : GPT2.model_shaped model v.
Hypothesis vocab_pos : (1 <= v)%nat.
Hypothesis context_pos : (1 <= context_size)%Z.

Lemma generate_step_total (b t : nat) (idx : tokens) (g : G) :
  (1 <= t)%nat -> has_shape2 b t idx ->
  exists idx' g',
    GPT2.generate_step model context_size idx g = (Ok idx', g') /\
    has_shape2 b (t + 1) idx'.
Proof.
  intros Ht Hidx. unfold GPT2.generate_step.
  rewrite idx_cond_last by assumption.
  pose proof (lastn_shape (Z.to_nat context_size) _ _ _ Hidx) as Hwin.
  assert (Hmin : (1 <= Nat.min (Z.to_nat context_size) t)%nat) by lia.
  destruct (model_ok _ _ _ g Hmin Hwin) as [logits [g' [Hm Hlog]]].
  destruct (append_greedy_total _ _ _ _ _ _ Hmin vocab_pos Hidx Hlog)
    as [idx' [Happ Hshape]].
  exists idx', g'. split; [|assumption].
  erewrite bind_ok; [|exact Hm]. unfold lift. rewrite Happ. reflexivity.
Qed.

Lemma generate_loop_total (n b t : nat) (idx : tokens) (g : G) :
  (1 <= t)%nat -> has_shape2 b t idx ->
  exists out g',
    GPT2.generate_loop model context_size n idx g = (Ok out, g') /\
    has_shape2 b (t + n) out.
Proof.
  revert t idx g; induction n as [|n IH]; intros t idx g Ht Hidx; simpl.
  - exists idx, g. rewrite Nat.add_0_r. split; [reflexivity|assumption].
  - destruct (generate_step_total _ _ _ g Ht Hidx) as [idx' [g1 [Hstep Hs]]].
    assert (Ht' : (1 <= t + 1)%nat) by lia.
    destruct (IH (t + 1)%nat idx' g1 Ht' Hs) as [out [g' [Hloop Hout]]].
    exists out, g'. split.
    + erewrite bind_ok; [|exact Hstep]. assumption.
    + replace (t + S n)%nat with (t + 1 + n)%nat by lia. assumption.
Qed.

End GenerateShapes.

(** ** Runs of the loop on the constant model *)

Lemma argmax_zero_one : argmax (softmax [0%R; 1%R]) = Ok 1%nat.
Proof.
  rewrite argmax_softmax. unfold argmax, argmax_from.
  destruct (Rlt_dec 0 1) as [_|H]; [reflexivity|exfalso; lra].
Qed.

Lemma select_last_snoc {A : Type} (front : list (list A)) (x : list A) :
  select_last [front ++ [x]] = Ok [x].
Proof.
  unfold select_last; simpl.
  destruct (front ++ [x]) as [|y t] eqn:E.
  - destruct front; discriminate.
  - rewrite <- E, last_last. reflexivity.
Qed.

Lemma constant_model_step (cs : Z) (row : list Z) (front : list Z) (x : Z) :
  py_slice_from (- cs) row = front ++ [x] ->
  GPT2.generate_step GPT2.constant_model cs [row] tt = (Ok [row ++ [1%Z]], tt).
Proof.
  intro Hrow. unfold GPT2.generate_step, GPT2.idx_cond, GPT2.constant_model.
  unfold bind, ret, lift. simpl map at 1. rewrite Hrow.
  unfold GPT2.append_greedy. simpl map.
  rewrite map_app. simpl map. rewrite select_last_snoc.
  cbn [rbind map]. unfold argmax_keepdim. cbn [mapM rbind].
  rewrite argmax_zero_one. reflexivity.
Qed.

Lemma constant_model_run :
  GPT2.generate_text_simple GPT2.constant_model [[5; 6]%Z] 2 1 tt
  = (Ok [[5; 6; 1; 1]%Z], tt).
Proof.
  unfold GPT2.generate_text_simple.
  change (Z.to_nat 2) with 2%nat. cbn [GPT2.generate_loop].
  unfold bind at 1.
  rewrite (constant_model_step 1 [5; 6]%Z [] 6%Z) by reflexivity.
  unfold bind at 1.
  rewrite (constant_model_step 1 ([5; 6] ++ [1])%Z [] 1%Z) by reflexivity.
  reflexivity.
Qed.

(** ** Claims about [generate_text_simple] *)

Lemma generate_loop_shape_of_rows (b t n : nat) (idx out : tokens) :
  has_shape2 b t idx ->
  length out = length idx ->
  (forall i row, nth_error idx i = Some row ->
     exists gen, nth_error out i = Some (row ++ gen) /\ length gen = n) ->
  has_shape2 b (t + n) out /\ map (firstn t) out = idx.
Proof.
  intros [Hb Hrows] Hlen Hext.
  rewrite Forall_forall in Hrows.
  split; [split; [lia|]|].
  - apply Forall_forall. intros r Hr.
    destruct (In_nth_error _ _ Hr) as [i Hi].
    assert (Hlt : (i < length idx)%nat).
    { rewrite <- Hlen. apply nth_error_Some. rewrite Hi; discriminate. }
    destruct (nth_error idx i) as [row|] eqn:Hrow;
      [|apply nth_error_None in Hrow; lia].
    destruct (Hext i row Hrow) as [gen [Ho Hg]].
    rewrite Hi in Ho; inversion Ho; subst r.
    unfold has_shape1. rewrite length_app.
    rewrite (Hrows row (nth_error_In _ _ Hrow)). lia.
  - apply nth_error_ext. intro i. rewrite nth_error_map.
    destruct (nth_error idx i) as [row|] eqn:Hrow.
    + destruct (Hext i row Hrow) as [gen [Ho Hg]]. rewrite Ho; simpl.
      f_equal.
      pose proof (Hrows row (nth_error_In _ _ Hrow)) as Hr. unfold has_shape1 in Hr.
      rewrite firstn_app, Hr, Nat.sub_diag. simpl. rewrite app_nil_r.
      rewrite <- Hr. apply firstn_all.
    + apply nth_error_None in Hrow.
      assert (Hn : nth_error out i = None) by (apply nth_error_None; lia).
      rewrite Hn; reflexivity.
Qed.

(** C8. [generate_text_simple] never modifies the prompt: the first [t]
    columns of the returned tensor are the input [idx], and every row is
    its input row followed by the generated tokens. *)
Theorem generate_keeps_prompt {G : Type} (model : tokens -> M G tensor3)
    (idx : tokens) (max_new_tokens context_size : Z) (b t : nat)
    (g g' : G) (out : tokens) :
  has_shape2 b t idx ->
  GPT2.generate_text_simple model idx max_new_tokens context_size g = (Ok out, g') ->
  map (firstn t) out = idx /\
  has_shape2 b (t + Z.to_nat max_new_tokens) out /\
  forall i row, nth_error idx i = Some row ->
    exists gen, nth_error out i = Some (row ++ gen) /\
                length gen = Z.to_nat max_new_tokens.
Proof.
  intros Hidx Hrun. unfold GPT2.generate_text_simple in Hrun.
  destruct (generate_loop_rows _ _ _ _ _ _ _ Hrun) as [Hlen Hext].
  destruct (generate_loop_shape_of_rows _ _ _ _ _ Hidx Hlen Hext) as [Hs Hf].
  repeat split; try assumption; apply Hs.
Qed.

Lemma generate_keeps_prompt_witness :
  map (firstn 2) [[5; 6; 1; 1]%Z] = [[5; 6]%Z].
Proof.
  assert (Hs : has_shape2 1 2 [[5; 6]%Z])
    by (split; [reflexivity|repeat constructor]).
  exact (proj1 (generate_keeps_prompt GPT2.constant_model [[5; 6]%Z] 2 1 1 2
                  tt tt [[5; 6; 1; 1]%Z] Hs constant_model_run)).
Defined.




Lemma constant_model_shaped : GPT2.model_shaped GPT2.constant_model 2.
Proof.
  intros b s x g _ [Hb Hrows].
  exists (map (map (fun _ : Z => [0%R; 1%R])) x), g.
  split; [reflexivity|]. split; [rewrite length_map; assumption|].
  apply Forall_map. eapply Forall_impl; [|exact Hrows].
  intros row Hrow. split; [rewrite length_map; assumption|].
  apply Forall_map. apply Forall_forall. intros; reflexivity.
Qed.



(** ** Broadcasting operations *)

Lemma mapM_ext {A B : Type} (f f' : A -> result B) (l : list A) :
  (forall x, f x = f' x) -> mapM f l = mapM f' l.
Proof.
  intro H; induction l as [|x t IH]; simpl; [reflexivity|].
  rewrite H, IH; reflexivity.
Qed.

Lemma mapM_combine_swap {A B C : Type} (f : A -> B -> result C)
    (f' : B -> A -> result C) (a : list A) (b : list B) :
  (forall x y, f x y = f' y x) ->
  mapM (fun p => f (fst p) (snd p)) (combine a b)
  = mapM (fun p => f' (fst p) (snd p)) (combine b a).
Proof.
  intro H; revert b; induction a as [|x a IH]; intros [|y b]; simpl;
    try reflexivity.
  rewrite H, IH; reflexivity.
Qed.

Lemma bzipM_comm {A B C : Type} (f : A -> B -> result C)
    (f' : B -> A -> result C) (a : list A) (b : list B) :
  (forall x y, f x y = f' y x) ->
  bzipM f a b = bzipM f' b a.
Proof.
  intro H. unfold bzipM. rewrite (Nat.eqb_sym (length b) (length a)).
  destruct (Nat.eqb (length a) (length b)) eqn:E.
  - apply mapM_combine_swap; assumption.
  - destruct a as [|x [|x2 a]]; destruct b as [|y [|y2 b]];
      try reflexivity; try discriminate E.
    + apply mapM_ext; intro; apply H.
    + apply mapM_ext; intro; apply H.
Qed.

Lemma vadd_comm (a b : vec) : vadd a b = vadd b a.
Proof.
  unfold vadd. apply bzipM_comm. intros x y. rewrite Rplus_comm; reflexivity.
Qed.

Lemma madd_comm (a b : tensor2) : madd a b = madd b a.
Proof. unfold madd. apply bzipM_comm. exact vadd_comm. Qed.

Lemma tadd_comm (a b : tensor3) : tadd a b = tadd b a.
Proof. unfold tadd. apply bzipM_comm. exact madd_comm. Qed.

Lemma bzipM_same_length {A B C : Type} (f : A -> B -> result C)
    (a : list A) (b : list B) :
  length a = length b ->
  bzipM f a b = mapM (fun p => f (fst p) (snd p)) (combine a b).
Proof.
  intro H. unfold bzipM. rewrite H, Nat.eqb_refl. reflexivity.
Qed.

Lemma bzipM_pure {A B C : Type} (f : A -> B -> C) (a : list A) (b : list B) :
  length a = length b ->
  bzipM (fun x y => Ok (f x y)) a b
  = Ok (map (fun p => f (fst p) (snd p)) (combine a b)).
Proof.
  intro H. rewrite bzipM_same_length by assumption.
  apply (mapM_pure (fun p => f (fst p) (snd p))).
Qed.

Lemma bind_ext {G A B : Type} (c : M G A) (k k' : A -> M G B) (g : G) :
  (forall a g', k a g' = k' a g') -> bind c k g = bind c k' g.
Proof.
  intro H. unfold bind. destruct (c g) as [[a|e] g']; [apply H|reflexivity].
Qed.

(** ** Claims about the transformer block and the normalisation layer *)


(** C2, on the code.  At initialisation ([scale] all ones, [shift] all
    zeros) and on the input [[1, 1]], whose mean is 1 and whose centred
    values are 0, standard layer normalisation yields [[0, 0]], but
    [LayerNrom.forward] subtracts the mean a second time and yields
    [[-1, -1]]. *)
Theorem LayerNrom_forward_subtracts_mean_twice :
  GPT2.LayerNrom.forward (GPT2.LayerNrom.init 2) [[[1; 1]]]%R
    = Ok [[[-1; -1]]]%R /\
  mapM (mapM (GPT2.LayerNrom.layer_norm_row (GPT2.LayerNrom.init 2))) [[[1; 1]]]%R
    = Ok [[[0; 0]]]%R.
Proof.
  assert (Hmean : GPT2.LayerNrom.mean [1; 1]%R = 1%R).
  { unfold GPT2.LayerNrom.mean, rsum; simpl. lra. }
  split.
  - unfold GPT2.LayerNrom.forward. cbn [mapM].
    unfold GPT2.LayerNrom.forward_row, GPT2.LayerNrom.norm_x, vmul, vadd, bzipM.
    rewrite Hmean. simpl.
    repeat f_equal; unfold Rdiv; ring.
  - cbn [mapM].
    unfold GPT2.LayerNrom.layer_norm_row, GPT2.LayerNrom.norm_x, vmul, vadd, bzipM.
    rewrite Hmean. simpl.
    repeat f_equal; unfold Rdiv; ring.
Qed.

(** On every vector that matches the layer's width, the output of
    [LayerNrom.forward_row] is the standard layer norm minus the mean. *)
Lemma LayerNrom_forward_row_shifted (ln : GPT2.LayerNrom.t) (x : vec) :
  length (GPT2.LayerNrom.scale ln) = length x ->
  length (GPT2.LayerNrom.shift ln) = length x ->
  exists std,
    GPT2.LayerNrom.layer_norm_row ln x = Ok std /\
    length std = length x /\
    GPT2.LayerNrom.forward_row ln x
      = Ok (map (fun y => (y - GPT2.LayerNrom.mean x)%R) std).
Proof.
  intros Hsc Hsh.
  unfold GPT2.LayerNrom.layer_norm_row, GPT2.LayerNrom.forward_row, vmul, vadd.
  assert (Hn : length (GPT2.LayerNrom.norm_x ln x) = length x)
    by (unfold GPT2.LayerNrom.norm_x; apply length_map).
  rewrite bzipM_pure by congruence. cbn [rbind].
  set (scaled := map (fun p : R * R => (fst p * snd p)%R)
                     (combine (GPT2.LayerNrom.scale ln) (GPT2.LayerNrom.norm_x ln x))).
  assert (Hs : length scaled = length x).
  { unfold scaled. rewrite length_map, length_combine. lia. }
  rewrite !bzipM_pure by (rewrite ?length_map; congruence).
  eexists; split; [reflexivity|]. split.
  - rewrite length_map, length_combine. lia.
  - f_equal.
    clear Hs. generalize (GPT2.LayerNrom.shift ln) as sh.
    induction scaled as [|y t IH]; intros [|z sh]; simpl; try reflexivity.
    rewrite IH. f_equal. ring.
Qed.

(** ** Shapes through the layers *)

Lemma mapM_shape {A B : Type} (f : A -> result B) (P : A -> Prop)
    (Q : B -> Prop) (l : list A) :
  Forall P l ->
  (forall x, P x -> exists y, f x = Ok y /\ Q y) ->
  exists l', mapM f l = Ok l' /\ length l' = length l /\ Forall Q l'.
Proof.
  intros Hl Hf.
  destruct (mapM_Forall_ok f Q l) as [l' [Hm HQ]].
  { eapply Forall_impl; [|exact Hl]. exact Hf. }
  exists l'. split; [assumption|]. split; [|assumption].
  apply (mapM_length _ _ _ Hm).
Qed.

Lemma mapM_shape2 {A B : Type} (f : list A -> result (list B)) (s e e' : nat)
    (m : list (list A)) :
  (forall v, length v = e -> exists w, f v = Ok w /\ length w = e') ->
  has_shape2 s e m ->
  exists m', mapM f m = Ok m' /\ has_shape2 s e' m'.
Proof.
  intros Hf [Hs Hrows].
  destruct (mapM_shape f (has_shape1 e) (has_shape1 e') m Hrows Hf)
    as [m' [Hm [Hlen Hq]]].
  exists m'. split; [assumption|]. split; [lia|assumption].
Qed.

Lemma mapM_shape3 {A B : Type} (f : list A -> result (list B)) (b s e e' : nat)
    (x : list (list (list A))) :
  (forall v, length v = e -> exists w, f v = Ok w /\ length w = e') ->
  has_shape3 b s e x ->
  exists y, mapM (mapM f) x = Ok y /\ has_shape3 b s e' y.
Proof.
  intros Hf [Hb Hrows].
  destruct (mapM_shape (mapM f) (has_shape2 s e) (has_shape2 s e') x Hrows)
    as [y [Hm [Hlen Hq]]].
  { intros m Hm. apply (mapM_shape2 f s e e'); assumption. }
  exists y. split; [assumption|]. split; [lia|assumption].
Qed.

Lemma bzipM_shape {A B C : Type} (f : A -> B -> result C)
    (P : A -> Prop) (Q : B -> Prop) (R' : C -> Prop) (n : nat)
    (a : list A) (b : list B) :
  length a = n -> length b = n -> Forall P a -> Forall Q b ->
  (forall x y, P x -> Q y -> exists c, f x y = Ok c /\ R' c) ->
  exists l, bzipM f a b = Ok l /\ length l = n /\ Forall R' l.
Proof.
  intros Ha Hb HP HQ Hf.
  rewrite bzipM_same_length by congruence.
  destruct (mapM_shape (fun p => f (fst p) (snd p))
              (fun p => P (fst p) /\ Q (snd p)) R' (combine a b))
    as [l [Hm [Hlen HR]]].
  - apply Forall_combine; assumption.
  - intros [x y] [Hx Hy]; simpl in *. apply Hf; assumption.
  - exists l. split; [assumption|]. split; [|assumption].
    rewrite Hlen, length_combine. lia.
Qed.

Lemma vadd_shape (e : nat) (a b : vec) :
  length a = e -> length b = e ->
  vadd a b = Ok (map (fun p => (fst p + snd p)%R) (combine a b)) /\
  length (map (fun p => (fst p + snd p)%R) (combine a b)) = e.
Proof.
  intros Ha Hb. split.
  - unfold vadd. apply bzipM_pure; congruence.
  - rewrite length_map, length_combine. lia.
Qed.

Lemma madd_shape (s e : nat) (a b : tensor2) :
  has_shape2 s e a -> has_shape2 s e b ->
  exists c, madd a b = Ok c /\ has_shape2 s e c.
Proof.
  intros [Ha HPa] [Hb HPb].
  destruct (bzipM_shape vadd (has_shape1 e) (has_shape1 e) (has_shape1 e) s a b
              Ha Hb HPa HPb) as [c [Hc [Hlen HR]]].
  { intros x y Hx Hy. destruct (vadd_shape e x y Hx Hy) as [H1 H2].
    eexists; split; [exact H1|exact H2]. }
  exists c. split; [assumption|]. split; assumption.
Qed.

Lemma tadd_shape (b s e : nat) (x y : tensor3) :
  has_shape3 b s e x -> has_shape3 b s e y ->
  exists z, tadd x y = Ok z /\ has_shape3 b s e z.
Proof.
  intros [Hx HPx] [Hy HPy].
  destruct (bzipM_shape madd (has_shape2 s e) (has_shape2 s e) (has_shape2 s e)
              b x y Hx Hy HPx HPy) as [z [Hz [Hlen HR]]].
  { intros m m' Hm Hm'. apply madd_shape; assumption. }
  exists z. split; [assumption|]. split; assumption.
Qed.

Lemma tadd_rank2_shape (b s e : nat) (x : tensor3) (p : tensor2) :
  has_shape3 b s e x -> has_shape2 s e p ->
  exists z, tadd_rank2 x p = Ok z /\ has_shape3 b s e z.
Proof.
  intros [Hx HPx] Hp.
  destruct (mapM_shape (fun m => madd m p) (has_shape2 s e) (has_shape2 s e) x HPx)
    as [z [Hz [Hlen HR]]].
  { intros m Hm. apply madd_shape; assumption. }
  exists z. split; [assumption|]. split; [lia|assumption].
Qed.

Lemma LayerNrom_forward_row_length (ln : GPT2.LayerNrom.t) (x : vec) (e : nat) :
  length (GPT2.LayerNrom.scale ln) = e ->
  length (GPT2.LayerNrom.shift ln) = e ->
  length x = e ->
  exists y, GPT2.LayerNrom.forward_row ln x = Ok y /\ length y = e.
Proof.
  intros Hsc Hsh Hx.
  destruct (LayerNrom_forward_row_shifted ln x) as [std [_ [Hlen Hf]]];
    [congruence|congruence|].
  eexists; split; [exact Hf|]. rewrite length_map. congruence.
Qed.

Lemma LayerNrom_forward_shape (ln : GPT2.LayerNrom.t) (b s e : nat) (x : tensor3) :
  length (GPT2.LayerNrom.scale ln) = e ->
  length (GPT2.LayerNrom.shift ln) = e ->
  has_shape3 b s e x ->
  exists y, GPT2.LayerNrom.forward ln x = Ok y /\ has_shape3 b s e y.
Proof.
  intros Hsc Hsh Hx. unfold GPT2.LayerNrom.forward.
  apply (mapM_shape3 (GPT2.LayerNrom.forward_row ln) b s e e); [|assumption].
  intros v Hv. apply LayerNrom_forward_row_length; assumption.
Qed.

Lemma Linear_forward_row_length (l : nn.Linear.t) (n_in n_out : nat)
    (wb : bool) (x : vec) :
  nn.Linear.in_features l = n_in ->
  length (nn.Linear.weight l) = n_out ->
  match nn.Linear.bias l with
  | Some b => wb = true /\ length b = n_out
  | None => wb = false
  end ->
  length x = n_in ->
  exists y, nn.Linear.forward_row l x = Ok y /\ length y = n_out.
Proof.
  intros Hin Hw Hb Hx. unfold nn.Linear.forward_row.
  rewrite Hx, Hin, Nat.eqb_refl.
  destruct (nn.Linear.bias l) as [bv|].
  - eexists; split; [reflexivity|].
    rewrite length_map, length_combine, length_map. lia.
  - eexists; split; [reflexivity|]. rewrite length_map. assumption.
Qed.

Lemma GELU_forward_shape (b s e : nat) (x : tensor3) :
  has_shape3 b s e x -> has_shape3 b s e (GPT2.GELU.forward x).
Proof.
  intros [Hb Hrows]. unfold GPT2.GELU.forward.
  split; [rewrite length_map; assumption|].
  apply Forall_map. eapply Forall_impl; [|exact Hrows].
  intros m [Hs Hm]. split; [rewrite length_map; assumption|].
  apply Forall_map. eapply Forall_impl; [|exact Hm].
  intros v Hv. unfold has_shape1 in *. rewrite length_map; assumption.
Qed.

Section ModelShapes.

Context {G : Type}.
Variable cfg : GPT2.Config.

Lemma Linear_forward_shape (l : nn.Linear.t) (n_in n_out : nat) (wb : bool)
    (b s : nat) (x : tensor3) :
  nn.Linear.built n_in n_out wb l ->
  has_shape3 b s n_in x ->
  exists y, nn.Linear.forward l x = Ok y /\ has_shape3 b s n_out y.
Proof.
  intros [Hin [_ [[Hw _] Hb]]] Hx. unfold nn.Linear.forward.
  apply (mapM_shape3 (nn.Linear.forward_row l) b s n_in n_out); [|assumption].
  intros v Hv. apply (Linear_forward_row_length l n_in n_out wb); assumption.
Qed.

Lemma FeedForward_forward_shape (f : GPT2.FeedForward.t) (b s : nat) (x : tensor3) :
  GPT2.FeedForward_built cfg f ->
  has_shape3 b s (GPT2.emb_dim cfg) x ->
  exists y, GPT2.FeedForward.forward f x = Ok y /\
            has_shape3 b s (GPT2.emb_dim cfg) y.
Proof.
  intros [H0 H2] Hx. unfold GPT2.FeedForward.forward.
  destruct (Linear_forward_shape _ _ _ _ b s x H0 Hx) as [h [Hh Hhs]].
  rewrite Hh; cbn [rbind].
  apply (Linear_forward_shape _ _ _ _ b s _ H2).
  apply GELU_forward_shape; assumption.
Qed.

Lemma TransformerBlock_forward_shape (blk : GPT2.TransformerBlock (G := G))
    (b s : nat) (x : tensor3) (g : G) :
  GPT2.TransformerBlock_built cfg blk ->
  (s <= GPT2.context_length cfg)%nat ->
  has_shape3 b s (GPT2.emb_dim cfg) x ->
  exists y g',
    GPT2.TransformerBlock_forward blk x g = (Ok y, g') /\
    has_shape3 b s (GPT2.emb_dim cfg) y.
Proof.
  intros [Hatt [Hff [[Hn1 Hn1'] [[Hn2 Hn2'] Hdrop]]]] Hs Hx.
  unfold GPT2.TransformerBlock_forward.
  destruct (LayerNrom_forward_shape _ b s _ x Hn1 Hn1' Hx) as [x1 [E1 S1]].
  destruct (Hatt b s x1 g Hs S1) as [x2 [g2 [E2 S2]]].
  destruct (Hdrop b s x2 g2 Hs S2) as [x3 [g3 [E3 S3]]].
  destruct (tadd_shape b s _ x3 x S3 Hx) as [x4 [E4 S4]].
  destruct (LayerNrom_forward_shape _ b s _ x4 Hn2 Hn2' S4) as [x5 [E5 S5]].
  destruct (FeedForward_forward_shape _ b s x5 Hff S5) as [x6 [E6 S6]].
  destruct (Hdrop b s x6 g3 Hs S6) as [x7 [g7 [E7 S7]]].
  destruct (tadd_shape b s _ x7 x4 S7 S4) as [x8 [E8 S8]].
  exists x8, g7. split; [|assumption].
  unfold bind, lift. rewrite E1, E2, E3, E4, E5, E6, E7, E8. reflexivity.
Qed.

Lemma Sequential_forward_shape (blocks : list (GPT2.TransformerBlock (G := G)))
    (b s : nat) (x : tensor3) (g : G) :
  Forall (GPT2.TransformerBlock_built cfg) blocks ->
  (s <= GPT2.context_length cfg)%nat ->
  has_shape3 b s (GPT2.emb_dim cfg) x ->
  exists y g',
    GPT2.Sequential_forward blocks x g = (Ok y, g') /\
    has_shape3 b s (GPT2.emb_dim cfg) y.
Proof.
  intros Hblocks Hs. revert x g.
  induction Hblocks as [|blk rest Hblk _ IH]; intros x g Hx; simpl.
  - exists x, g. split; [reflexivity|assumption].
  - destruct (TransformerBlock_forward_shape blk b s x g Hblk Hs Hx)
      as [y [g1 [Ey Sy]]].
    destruct (IH y g1 Sy) as [z [g2 [Ez Sz]]].
    exists z, g2. split; [|assumption].
    erewrite bind_ok; [|exact Ey]. assumption.
Qed.

Lemma Embedding_forward_ok (weight : tensor2) (v e : nat) (i : Z) :
  has_shape2 v e weight -> (0 <= i < Z.of_nat v)%Z ->
  exists row,
    nn.Embedding.forward weight i = Ok row /\ length row = e /\
    nth_error weight (Z.to_nat i) = Some row.
Proof.
  intros [Hv Hrows] Hi. unfold nn.Embedding.forward.
  destruct (Z.ltb_spec i 0) as [Hneg|_]; [lia|].
  destruct (nth_error weight (Z.to_nat i)) as [row|] eqn:E.
  - exists row. split; [reflexivity|]. split; [|reflexivity].
    rewrite Forall_forall in Hrows. apply Hrows. eapply nth_error_In; exact E.
  - apply nth_error_None in E. lia.
Qed.

Lemma arange_in_range (n : nat) :
  length (GPT2.arange n) = n /\
  Forall (fun i => (0 <= i < Z.of_nat n)%Z) (GPT2.arange n).
Proof.
  unfold GPT2.arange. split; [rewrite length_map, length_seq; reflexivity|].
  apply Forall_map, Forall_forall. intros i Hi. apply in_seq in Hi. lia.
Qed.

Lemma seq_len_of_shape (b s : nat) (in_idx : tokens) :
  has_shape2 b s in_idx -> (1 <= b)%nat -> GPT2.seq_len_of in_idx = s.
Proof.
  intros [Hb Hrows] Hpos. destruct in_idx as [|row rest]; [simpl in Hb; lia|].
  simpl. inversion Hrows; assumption.
Qed.

End ModelShapes.

Lemma seq_len_of_normal (b s : nat) (in_idx : tokens) :
  has_shape2 b s in_idx ->
  has_shape2 b (GPT2.seq_len_of in_idx) in_idx /\
  (GPT2.seq_len_of in_idx <= s)%nat /\
  forall (v : nat) (l : tensor3),
    has_shape3 b (GPT2.seq_len_of in_idx) v l -> has_shape3 b s v l.
Proof.
  intros Hshape. destruct in_idx as [|row rest].
  - destruct Hshape as [Hb _]. simpl in Hb. subst b. simpl.
    split; [split; [reflexivity|constructor]|]. split; [lia|].
    intros v l [Hl _]. destruct l; [|discriminate].
    split; [reflexivity|constructor].
  - assert (Hs : GPT2.seq_len_of (row :: rest) = s).
    { apply (seq_len_of_shape b s); [assumption|].
      destruct Hshape as [Hb _]; simpl in Hb; lia. }
    rewrite Hs. split; [assumption|]. split; [lia|]. intros; assumption.
Qed.

Lemma tadd_rank2_entry (x : tensor3) (p : tensor2) (z : tensor3) (s e : nat) :
  tadd_rank2 x p = Ok z ->
  Forall (has_shape2 s e) x -> has_shape2 s e p ->
  forall i m j te pe,
    nth_error x i = Some m -> nth_error m j = Some te ->
    nth_error p j = Some pe ->
    exists zm, nth_error z i = Some zm /\
               nth_error zm j = Some (map (fun q => (fst q + snd q)%R) (combine te pe)).
Proof.
  intros Hz Hx [Hp HPp] i m j te pe Hi Hj Hpj.
  destruct (mapM_nth_error _ _ _ Hz _ _ Hi) as [zm [Hzm Hzi]].
  exists zm. split; [assumption|].
  rewrite Forall_forall in Hx.
  destruct (Hx m (nth_error_In _ _ Hi)) as [Hm HPm].
  unfold madd in Hzm. rewrite bzipM_same_length in Hzm by congruence.
  assert (Hc : nth_error (combine m p) j = Some (te, pe)).
  { clear - Hj Hpj. revert p j Hj Hpj.
    induction m as [|a m IH]; intros [|c p] [|j] Hj Hpj; simpl in *;
      try discriminate.
    - inversion Hj; inversion Hpj; reflexivity.
    - apply IH; assumption. }
  destruct (mapM_nth_error _ _ _ Hzm _ _ Hc) as [zv [Hzv Hzj]].
  simpl in Hzv. rewrite Forall_forall in HPm, HPp.
  pose proof (HPm te (nth_error_In _ _ Hj)) as Lte.
  pose proof (HPp pe (nth_error_In _ _ Hpj)) as Lpe.
  destruct (vadd_shape e te pe Lte Lpe) as [Hv _].
  rewrite Hv in Hzv. inversion Hzv; subst. assumption.
Qed.

(** ** Claim about [GPTModel.forward] *)


Lemma identity_layer_keeps_shape (cfg : GPT2.Config) :
  GPT2.keeps_shape cfg GPT2.identity_layer.
Proof.
  intros b s x g _ Hx. exists x, g. split; [reflexivity|assumption].
Qed.

Lemma tiny_model_built : GPT2.GPTModel_built GPT2.tiny_config GPT2.tiny_model.
Proof.
  assert (Hln : GPT2.LayerNrom_built GPT2.tiny_config (GPT2.LayerNrom.init 1))
    by (split; reflexivity).
  assert (Hid := identity_layer_keeps_shape GPT2.tiny_config).
  split; [split; [reflexivity|repeat constructor]|].
  split; [split; [reflexivity|repeat constructor]|].
  split; [exact Hid|]. split; [reflexivity|]. split.
  - constructor; [|constructor].
    split; [exact Hid|]. split.
    + split; (split; [reflexivity|]; split; [reflexivity|]; split;
        [split; [reflexivity|repeat constructor]|split; reflexivity]).
    + split; [exact Hln|]. split; [exact Hln|exact Hid].
  - split; [exact Hln|].
    split; [reflexivity|]. split; [reflexivity|].
    split; [split; [reflexivity|repeat constructor]|reflexivity].
Qed.


(** ** Which exceptions the tensor operations raise *)

Lemma rbind_no_assert {A B : Type} (c : result A) (k : A -> result B) :
  no_assert c -> (forall a, no_assert (k a)) -> no_assert (rbind c k).
Proof.
  intros Hc Hk. destruct c as [a|e]; simpl; [apply Hk|].
  intro H. apply Hc. inversion H; reflexivity.
Qed.

Lemma mapM_no_assert {A B : Type} (f : A -> result B) (l : list A) :
  (forall x, no_assert (f x)) -> no_assert (mapM f l).
Proof.
  intro Hf. induction l as [|x t IH]; simpl; [discriminate|].
  apply rbind_no_assert; [apply Hf|]. intro y.
  apply rbind_no_assert; [exact IH|]. intro ys. discriminate.
Qed.

Lemma bzipM_no_assert {A B C : Type} (f : A -> B -> result C)
    (a : list A) (b : list B) :
  (forall x y, no_assert (f x y)) -> no_assert (bzipM f a b).
Proof.
  intro Hf. unfold bzipM.
  destruct (Nat.eqb (length a) (length b)).
  - apply mapM_no_assert. intros [x y]; apply Hf.
  - destruct a as [|x [|x2 a]]; destruct b as [|y [|y2 b]];
      try discriminate; apply mapM_no_assert; intro; apply Hf.
Qed.

Lemma vmul_no_assert (a b : vec) : no_assert (vmul a b).
Proof. apply bzipM_no_assert; intros; discriminate. Qed.

Lemma Embedding_forward_no_assert (w : tensor2) (i : Z) :
  no_assert (nn.Embedding.forward w i).
Proof.
  unfold nn.Embedding.forward.
  destruct (i <? 0)%Z; [discriminate|].
  destruct (nth_error w (Z.to_nat i)); discriminate.
Qed.

Lemma Linear_forward_row_no_assert (l : nn.Linear.t) (x : vec) :
  no_assert (nn.Linear.forward_row l x).
Proof.
  unfold nn.Linear.forward_row.
  destruct (Nat.eqb (length x) (nn.Linear.in_features l)); [|discriminate].
  destruct (nn.Linear.bias l); discriminate.
Qed.

Lemma cat_dim1_no_assert {A : Type} (a b : list (list A)) :
  no_assert (cat_dim1 a b).
Proof.
  unfold cat_dim1. destruct (Nat.eqb (length a) (length b)); discriminate.
Qed.

Lemma expand_no_assert (k c : nat) (src : tensor2) :
  no_assert (Flow.expand k c src).
Proof.
  unfold Flow.expand. apply rbind_no_assert.
  - apply mapM_no_assert. intro r. unfold Flow.expand_row.
    destruct (Nat.eqb (length r) c); [discriminate|].
    destruct r as [|x [|x2 r]]; discriminate.
  - intro rows. destruct (Nat.eqb (length rows) k); [discriminate|].
    destruct rows as [|r [|r2 rows]]; discriminate.
Qed.

Lemma fill_conds_no_assert (c : nat) (prompt_feat conds : tensor3) (i : nat)
    (lens : list Z) :
  no_assert (Flow.fill_conds c prompt_feat conds i lens).
Proof.
  revert conds i; induction lens as [|j rest IH]; intros conds i; simpl.
  - discriminate.
  - destruct (nth_error prompt_feat i) as [src|]; [|discriminate].
    apply rbind_no_assert; [|intro; apply IH].
    unfold Flow.assign_prefix.
    destruct (nth_error conds i) as [block|]; [|discriminate].
    apply rbind_no_assert; [apply expand_no_assert|]. intro; discriminate.
Qed.

Section FlowExceptions.

Context {G : Type}.
Variable make_pad_mask : list Z -> result (list (list bool)).
Variable m : Flow.MaskedDiffWithXvec (G := G).

Lemma bind_never_asserts {A B : Type} (c : M G A) (k : A -> M G B) :
  never_asserts c -> (forall a, never_asserts (k a)) ->
  never_asserts (bind c k).
Proof.
  intros Hc Hk g. unfold bind. specialize (Hc g).
  destruct (c g) as [[a|e] g']; simpl in *; [apply Hk|].
  intro H. apply Hc. inversion H; reflexivity.
Qed.

Lemma lift_never_asserts {A : Type} (r : result A) :
  no_assert r -> never_asserts (lift (G := G) r).
Proof. intros Hr g. exact Hr. Qed.

Lemma ret_never_asserts {A : Type} (a : A) : never_asserts (ret (G := G) a).
Proof. intro g. discriminate. Qed.

Lemma project_speaker_no_assert (embedding : tensor2) :
  no_assert (Flow.project_speaker m embedding).
Proof.
  unfold Flow.project_speaker. apply mapM_no_assert.
  intro; apply Linear_forward_row_no_assert.
Qed.

Lemma embed_and_mask_no_assert (token : tokens) (mask : tensor3) :
  no_assert (Flow.embed_and_mask m token mask).
Proof.
  unfold Flow.embed_and_mask. apply rbind_no_assert.
  - unfold Flow.embed_tokens. apply mapM_no_assert. intro row.
    apply mapM_no_assert. intro; apply Embedding_forward_no_assert.
  - intro e. unfold Flow.tmul. apply bzipM_no_assert. intros x y.
    apply bzipM_no_assert. intros; apply vmul_no_assert.
Qed.

Lemma make_conds_no_assert (feat_len : list Z) (prompt_feat : tensor3)
    (prompt_feat_len : list Z) :
  no_assert (Flow.make_conds m feat_len prompt_feat prompt_feat_len).
Proof.
  unfold Flow.make_conds. apply rbind_no_assert.
  - destruct feat_len; discriminate.
  - intro n. apply rbind_no_assert.
    + unfold Flow.zeros. destruct (n <? 0)%Z; discriminate.
    + intro conds. destruct (Nat.eqb (Flow.shape1 prompt_feat) 0);
        [discriminate|apply fill_conds_no_assert].
Qed.

(** With a single batch row the only exceptions left are those of the
    tensor operations and of the injected layers. *)
Lemma inference_batch_one_never_asserts
    (token : tokens) (token_len : list Z)
    (prompt_token : tokens) (prompt_token_len : list Z)
    (prompt_feat : tensor3) (prompt_feat_len : list Z) (embedding : tensor2) :
  Flow.modules_never_assert make_pad_mask m ->
  length token = 1%nat ->
  never_asserts (Flow.inference make_pad_mask m token token_len prompt_token
                   prompt_token_len prompt_feat prompt_feat_len embedding).
Proof.
  intros [Hmask [Henc [Hreg Hdec]]] Hone. unfold Flow.inference.
  rewrite Hone. simpl Nat.eqb. cbv iota.
  apply bind_never_asserts; [apply lift_never_asserts; discriminate|]. intros _.
  apply bind_never_asserts;
    [apply lift_never_asserts, project_speaker_no_assert|]. intro spks.
  apply bind_never_asserts;
    [apply lift_never_asserts, cat_dim1_no_assert|]. intro tok.
  apply bind_never_asserts.
  { apply lift_never_asserts. apply bzipM_no_assert. intros; discriminate. }
  intro tlen.
  apply bind_never_asserts; [apply lift_never_asserts, Hmask|]. intro mask.
  apply bind_never_asserts;
    [apply lift_never_asserts, embed_and_mask_no_assert|]. intro emb.
  apply bind_never_asserts; [apply Henc|]. intro hh.
  apply bind_never_asserts.
  { apply lift_never_asserts. unfold nn.Linear.forward.
    apply mapM_no_assert. intro. apply mapM_no_assert.
    intro; apply Linear_forward_row_no_assert. }
  intro h.
  apply bind_never_asserts; [apply Hreg|]. intro hh2.
  apply bind_never_asserts;
    [apply lift_never_asserts, make_conds_no_assert|]. intro conds.
  apply bind_never_asserts; [apply lift_never_asserts, Hmask|]. intro mask2.
  apply bind_never_asserts; [apply Hdec|]. intro feat.
  destruct (Nat.eqb (Flow.shape1 prompt_feat) 0); apply ret_never_asserts.
Qed.

End FlowExceptions.

(** ** Claims about [MaskedDiffWithXvec.inference] *)

(** C9. [inference] raises [AssertionError] exactly when the batch size
    [token.shape[0]] is not 1, and then before any layer has run: the
    generator state is untouched.  With a single batch row the assertion
    cannot fire. *)
Theorem inference_asserts_batch_one {G : Type}
    (make_pad_mask : list Z -> result (list (list bool)))
    (m : Flow.MaskedDiffWithXvec (G := G))
    (token : tokens) (token_len : list Z)
    (prompt_token : tokens) (prompt_token_len : list Z)
    (prompt_feat : tensor3) (prompt_feat_len : list Z) (embedding : tensor2)
    (g : G) :
  Flow.modules_never_assert make_pad_mask m ->
  (fst (Flow.inference make_pad_mask m token token_len prompt_token
          prompt_token_len prompt_feat prompt_feat_len embedding g)
     = Err AssertionError <-> length token <> 1%nat) /\
  (length token <> 1%nat ->
   Flow.inference make_pad_mask m token token_len prompt_token
     prompt_token_len prompt_feat prompt_feat_len embedding g
   = (Err AssertionError, g)).
Proof.
  intro Hmods.
  assert (Hfail : length token <> 1%nat ->
            Flow.inference make_pad_mask m token token_len prompt_token
              prompt_token_len prompt_feat prompt_feat_len embedding g
            = (Err AssertionError, g)).
  { intro Hne. unfold Flow.inference.
    destruct (Nat.eqb_spec (length token) 1) as [Heq|_]; [contradiction|].
    reflexivity. }
  split; [split|exact Hfail].
  - intros Herr Hone.
    exact (inference_batch_one_never_asserts make_pad_mask m token token_len
             prompt_token prompt_token_len prompt_feat prompt_feat_len embedding
             Hmods Hone g Herr).
  - intro Hne. rewrite (Hfail Hne). reflexivity.
Qed.

Lemma echo_model_never_asserts :
  Flow.modules_never_assert Flow.pad_mask Flow.echo_model.
Proof.
  split; [|split; [|split]].
  - intro lens. unfold Flow.pad_mask. apply rbind_no_assert.
    + destruct lens; discriminate.
    + intro mx. destruct (mx <? 0)%Z; discriminate.
  - intros x lens g. discriminate.
  - intros h lens g. discriminate.
  - intros mu mask spks cond n g. discriminate.
Qed.

Lemma inference_asserts_batch_one_witness :
  Flow.inference Flow.pad_mask Flow.echo_model [[0]; [1]]%Z [1; 1]%Z
    [[]; []] [0; 0]%Z [] [] [[1%R]; [1%R]] tt
  = (Err AssertionError, tt).
Proof.
  assert (Hne : length [[0]; [1]]%Z <> 1%nat) by (simpl; lia).
  exact (proj2 (inference_asserts_batch_one Flow.pad_mask Flow.echo_model
                  [[0]; [1]]%Z [1; 1]%Z [[]; []] [0; 0]%Z [] [] [[1%R]; [1%R]] tt
                  echo_model_never_asserts) Hne).
Defined.



(** The padding id -1 is embedded as id 0. *)
Example embed_tokens_padding :
  Flow.embed_tokens Flow.echo_model [[-1; 1; 0]%Z] = Ok [[[1]; [2]; [1]]]%R.
Proof. reflexivity. Qed.

(** ** Running [inference] stage by stage *)

Lemma Rtrunc_nonneg (x : R) : (0 <= x)%R -> (0 <= Flow.Rtrunc x)%Z.
Proof.
  intro Hx. unfold Flow.Rtrunc.
  destruct (Rlt_dec x 0) as [Hneg|_]; [lra|].
  destruct (base_Int_part x) as [_ Hlow].
  assert (H : (IZR (-1) < IZR (Int_part x))%R) by (simpl; lra).
  apply lt_IZR in H. lia.
Qed.

Lemma drop_frames_zero (x : tensor3) : Flow.drop_frames 0 x = x.
Proof.
  unfold Flow.drop_frames. rewrite <- (map_id x) at 2.
  apply map_ext. intro mtx. rewrite <- (map_id mtx) at 2.
  apply map_ext. intro r. reflexivity.
Qed.

Section FlowRun.

Context {G : Type}.
Variable make_pad_mask : list Z -> result (list (list bool)).
Variable m : Flow.MaskedDiffWithXvec (G := G).

(** One run of [inference] on a single batch row, given what every stage
    returns. *)
Lemma inference_run (trow prow : list Z) (tl pl : Z)
    (prompt_feat : tensor3) (prompt_feat_len : list Z) (embedding : tensor2)
    (g g1 g2 g3 : G) (spks : tensor2) (mask1 mask2 : list (list bool))
    (tok h hl hp h2 conds feat : tensor3) (hl2 : list Z) :
  Flow.project_speaker m embedding = Ok spks ->
  make_pad_mask [(pl + tl)%Z] = Ok mask1 ->
  Flow.embed_and_mask m [prow ++ trow]
    (Flow.unsqueeze_last (Flow.not_float mask1)) = Ok tok ->
  Flow.encoder m tok [(pl + tl)%Z] g = (Ok (h, hl), g1) ->
  nn.Linear.forward (Flow.encoder_proj m) h = Ok hp ->
  Flow.length_regulator m hp (Flow.feat_len_of m [(pl + tl)%Z]) g1
    = (Ok (h2, hl2), g2) ->
  Flow.make_conds m (Flow.feat_len_of m [(pl + tl)%Z]) prompt_feat prompt_feat_len
    = Ok conds ->
  make_pad_mask (Flow.feat_len_of m [(pl + tl)%Z]) = Ok mask2 ->
  Flow.decoder m (Flow.transpose12 (Flow.shape1 (hd [] h2)) h2)
    (Flow.unsqueeze_1 (Flow.not_float mask2)) spks
    (Flow.transpose12 (Flow.output_size m) conds) 10 g2 = (Ok feat, g3) ->
  Flow.inference make_pad_mask m [trow] [tl] [prow] [pl]
    prompt_feat prompt_feat_len embedding g
  = (Ok (Flow.drop_frames (Flow.shape1 prompt_feat) feat), g3).
Proof.
  intros Hspk Hm1 Htok Henc Hproj Hreg Hconds Hm2 Hdec.
  unfold Flow.inference, bind, lift.
  cbn [length Nat.eqb]. rewrite Hspk.
  cbn [cat_dim1 length Nat.eqb combine map fst snd].
  change (Flow.zadd [pl] [tl]) with (Ok (A := list Z) [(pl + tl)%Z]).
  cbv beta iota. rewrite Hm1, Htok, Henc. cbn [fst]. rewrite Hproj, Hreg.
  cbn [fst]. rewrite Hconds, Hm2, Hdec.
  destruct (Nat.eqb_spec (Flow.shape1 prompt_feat) 0) as [Hz|Hnz].
  - rewrite Hz, drop_frames_zero. reflexivity.
  - reflexivity.
Qed.

End FlowRun.

Lemma vmul_singleton (a : vec) (y : R) :
  vmul a [y] = Ok (map (fun x => (x * y)%R) a).
Proof.
  unfold vmul, bzipM.
  destruct a as [|x [|x2 a]]; try reflexivity.
  cbn [length Nat.eqb].
  apply (mapM_pure (fun x => (x * y)%R)).
Qed.

Lemma tmul_mask_shape (b t d : nat) (e : tensor3) (mask : list (list bool)) :
  has_shape3 b t d e -> has_shape2 b t mask ->
  exists tok,
    Flow.tmul e (Flow.unsqueeze_last (Flow.not_float mask)) = Ok tok /\
    has_shape3 b t d tok.
Proof.
  intros [He HPe] [Hm HPm]. unfold Flow.tmul.
  set (single := fun r : vec => exists y, r = [y]).
  destruct (bzipM_shape (bzipM vmul) (has_shape2 t d)
              (fun mk : tensor2 => length mk = t /\ Forall single mk)
              (has_shape2 t d) b e
              (Flow.unsqueeze_last (Flow.not_float mask))) as [tok [Htok [Hl HR]]].
  - assumption.
  - unfold Flow.unsqueeze_last, Flow.not_float. rewrite !length_map. assumption.
  - assumption.
  - unfold Flow.unsqueeze_last, Flow.not_float.
    apply Forall_map, Forall_map. eapply Forall_impl; [|exact HPm].
    intros row Hrow. split; [rewrite !length_map; exact Hrow|].
    apply Forall_map, Forall_map. apply Forall_forall.
    intros x _. eexists; reflexivity.
  - intros mtx mk [Hmt HPmt] [Hmk HPmk].
    destruct (bzipM_shape vmul (has_shape1 d) single (has_shape1 d) t mtx mk
                Hmt Hmk HPmt HPmk) as [r [Hr [Hlr HRr]]].
    + intros v s Hv [y ->]. rewrite vmul_singleton.
      eexists; split; [reflexivity|]. unfold has_shape1 in *.
      rewrite length_map; assumption.
    + exists r. split; [assumption|]. split; assumption.
  - exists tok. split; [assumption|]. split; assumption.
Qed.

Lemma skipn_In {A : Type} (l : list A) (x : A) (n : nat) :
  In x (skipn n l) -> In x l.
Proof.
  intro H. rewrite <- (firstn_skipn n l). apply in_or_app. right; exact H.
Qed.

Lemma expand_rows_same (c : nat) (pf : tensor2) :
  Forall (has_shape1 c) pf -> Flow.expand (length pf) c pf = Ok pf.
Proof.
  intro Hpf. unfold Flow.expand.
  assert (Hrows : mapM (Flow.expand_row c) pf = Ok pf).
  { induction Hpf as [|r pf Hr _ IH]; simpl; [reflexivity|].
    unfold Flow.expand_row at 1. unfold has_shape1 in Hr.
    rewrite Hr, Nat.eqb_refl. simpl. rewrite IH. reflexivity. }
  rewrite Hrows. simpl. rewrite Nat.eqb_refl. reflexivity.
Qed.

Section FlowSteps.

Context {G : Type}.
Variable m : Flow.MaskedDiffWithXvec (G := G).

Lemma project_speaker_shape (spk_embed_dim : nat) (embedding : tensor2) :
  nn.Linear.built spk_embed_dim (Flow.output_size m) true
    (Flow.spk_embed_affine_layer m) ->
  Forall (has_shape1 spk_embed_dim) embedding ->
  exists spks,
    Flow.project_speaker m embedding = Ok spks /\
    has_shape2 (length embedding) (Flow.output_size m) spks.
Proof.
  intros [Hin [_ [[Hw _] Hb]]] Hemb. unfold Flow.project_speaker.
  destruct (mapM_shape2 (nn.Linear.forward_row (Flow.spk_embed_affine_layer m))
              (length embedding) spk_embed_dim (Flow.output_size m)
              (Flow.normalize embedding)) as [spks [Hs Hshape]].
  - intros v Hv.
    apply (Linear_forward_row_length _ spk_embed_dim (Flow.output_size m) true);
      assumption.
  - unfold Flow.normalize. split; [apply length_map|].
    apply Forall_map. eapply Forall_impl; [|exact Hemb].
    intros v Hv. unfold has_shape1, Flow.normalize_row in *.
    rewrite length_map; assumption.
  - exists spks. split; assumption.
Qed.

Lemma embed_tokens_shape (b t : nat) (token : tokens) :
  (1 <= Flow.vocab_size m)%nat ->
  has_shape2 (Flow.vocab_size m) (Flow.input_size m) (Flow.input_embedding m) ->
  Forall (Forall (fun id => (id < Z.of_nat (Flow.vocab_size m))%Z)) token ->
  has_shape2 b t token ->
  exists e, Flow.embed_tokens m token = Ok e /\
            has_shape3 b t (Flow.input_size m) e.
Proof.
  intros Hv Hw Hids [Hb Hrows]. unfold Flow.embed_tokens, Flow.clamp_min0.
  set (lookup := nn.Embedding.forward (Flow.input_embedding m)).
  destruct (mapM_shape (mapM lookup)
              (fun row => has_shape1 t row /\
                 Forall (fun id => (0 <= id < Z.of_nat (Flow.vocab_size m))%Z) row)
              (has_shape2 t (Flow.input_size m))
              (map (map (Z.max 0)) token)) as [e [He [Hlen HQ]]].
  - apply Forall_map. pose proof (Forall_and Hrows Hids) as Hboth.
    eapply Forall_impl; [|exact Hboth].
    intros row [Hrow Hin]. split.
    + unfold has_shape1 in *. rewrite length_map; assumption.
    + apply Forall_map. eapply Forall_impl; [|exact Hin].
      intros id Hid; cbv beta in *. lia.
  - intros row [Hrow Hin].
    destruct (mapM_shape lookup _ (has_shape1 (Flow.input_size m)) row Hin)
      as [r [Hr [Hlr HQr]]].
    + intros id Hid.
      destruct (Embedding_forward_ok _ _ _ id Hw Hid) as [v [Hv' [Hlv _]]].
      exists v; split; assumption.
    + exists r. split; [assumption|].
      split; [unfold has_shape1 in Hrow; lia|assumption].
  - exists e. split; [assumption|].
    split; [rewrite Hlen, length_map; assumption|assumption].
Qed.

Lemma embed_and_mask_shape (b t : nat) (token : tokens)
    (mask : list (list bool)) :
  (1 <= Flow.vocab_size m)%nat ->
  has_shape2 (Flow.vocab_size m) (Flow.input_size m) (Flow.input_embedding m) ->
  Forall (Forall (fun id => (id < Z.of_nat (Flow.vocab_size m))%Z)) token ->
  has_shape2 b t token -> has_shape2 b t mask ->
  exists tok,
    Flow.embed_and_mask m token (Flow.unsqueeze_last (Flow.not_float mask))
      = Ok tok /\
    has_shape3 b t (Flow.input_size m) tok.
Proof.
  intros Hv Hw Hids Htoken Hmask. unfold Flow.embed_and_mask.
  destruct (embed_tokens_shape b t token Hv Hw Hids Htoken) as [e [He Hes]].
  rewrite He. cbn [rbind]. apply tmul_mask_shape; assumption.
Qed.

Lemma make_conds_shape (fl : Z) (prompt_feat : tensor3)
    (prompt_feat_len : list Z) :
  (0 <= fl)%Z ->
  Flow.valid_prompt (Flow.output_size m) fl prompt_feat prompt_feat_len ->
  exists conds,
    Flow.make_conds m [fl] prompt_feat prompt_feat_len = Ok conds /\
    has_shape3 1 (Z.to_nat fl) (Flow.output_size m) conds /\
    (forall pf, prompt_feat = [pf] ->
       exists rest, conds = [pf ++ rest] /\
                    Forall (Forall (fun x => x = 0%R)) rest).
Proof.
  intros Hfl Hprompt. unfold Flow.make_conds.
  cbn [Flow.zmax fold_left rbind]. unfold Flow.zeros.
  destruct (Z.ltb_spec fl 0) as [Hneg|_]; [lia|]. cbn [rbind].
  set (c := Flow.output_size m) in *.
  set (zero_frames := repeat (repeat 0%R c) (Z.to_nat fl)).
  assert (Hz : has_shape2 (Z.to_nat fl) c zero_frames).
  { split; [apply repeat_length|]. apply Forall_forall. intros r Hr.
    apply repeat_spec in Hr. subst r. apply repeat_length. }
  assert (Hzero : forall k, Forall (Forall (fun x => x = 0%R)) (skipn k zero_frames)).
  { intro k. apply Forall_forall. intros r Hr.
    apply (skipn_In zero_frames r k) in Hr. apply repeat_spec in Hr. subst r.
    apply Forall_forall. intros x Hx. apply repeat_spec in Hx. exact Hx. }
  destruct (Nat.eqb_spec (Flow.shape1 prompt_feat) 0) as [Hempty|Hnonempty].
  - exists [zero_frames]. split; [reflexivity|].
    split; [split; [reflexivity|repeat constructor; apply Hz]|].
    intros pf ->. simpl in Hempty. apply length_zero_iff_nil in Hempty. subst pf.
    exists zero_frames. split; [reflexivity|]. apply (Hzero 0%nat).
  - destruct Hprompt as [Hempty|[pf [-> [-> [Hle Hpf]]]]]; [contradiction|].
    cbn [Flow.fill_conds nth_error]. unfold Flow.assign_prefix.
    cbn [nth_error].
    assert (Hk : Flow.py_slice_stop (Z.of_nat (length pf)) (length zero_frames)
                 = length pf).
    { unfold Flow.py_slice_stop. destruct Hz as [Hlz _]. rewrite Hlz.
      destruct (Z.ltb_spec (Z.of_nat (length pf)) 0); lia. }
    rewrite Hk, expand_rows_same by assumption. cbn [rbind Flow.set_nth].
    exists [pf ++ skipn (length pf) zero_frames].
    split; [reflexivity|]. split.
    + split; [reflexivity|]. constructor; [|constructor]. split.
      * rewrite length_app, length_skipn. destruct Hz as [Hlz _]. lia.
      * apply Forall_app. split; [assumption|].
        destruct Hz as [_ Hz]. rewrite Forall_forall in Hz.
        apply Forall_forall. intros r Hr. apply Hz.
        exact (skipn_In zero_frames r (length pf) Hr).
    + intros pf' Heq. inversion Heq; subst pf'.
      eexists; split; [reflexivity|apply Hzero].
Qed.

End FlowSteps.


Lemma Rtrunc_between (x : R) (z : Z) :
  (0 <= IZR z)%R -> (IZR z <= x < IZR z + 1)%R -> Flow.Rtrunc x = z.
Proof.
  intros Hz [Hlo Hhi]. unfold Flow.Rtrunc.
  destruct (Rlt_dec x 0) as [Hneg|_]; [lra|].
  symmetry. apply Int_part_spec. lra.
Qed.

(** The source comment at line 124: 25 tokens at 12.5 tokens per second
    give 172 mel frames. *)
Example feat_len_of_25_tokens :
  Flow.Rtrunc (IZR 25 / 12.5 * 22050 / 256) = 172%Z.
Proof. apply Rtrunc_between; lra. Qed.

Lemma echo_model_feat_len :
  Flow.Rtrunc (IZR (0 + 2) / Flow.input_frame_rate Flow.echo_model * 22050 / 256)
  = 3%Z.
Proof. apply Rtrunc_between; simpl; lra. Qed.

Lemma echo_model_built : Flow.built 1 1 Flow.echo_model.
Proof.
  split; [split; [reflexivity|repeat constructor]|].
  split; (split; [reflexivity|]; split; [reflexivity|]; split;
          [split; [reflexivity|repeat constructor]|split; reflexivity]).
Qed.


(** ** The speaker projection and the shape of the result *)

Lemma rsum_squares_nonneg (v : vec) :
  (0 <= rsum (map (fun x => x * x) v))%R.
Proof.
  induction v as [|x t IH]; simpl; [lra|].
  pose proof (Rle_0_sqr x) as Hx. unfold Rsqr in Hx. lra.
Qed.

Lemma rsum_squares_scaled (v : vec) (n : R) :
  n <> 0%R ->
  rsum (map (fun x => x * x)%R (map (fun x => x / n)%R v))
  = (rsum (map (fun x => x * x) v) / (n * n))%R.
Proof.
  intro Hn. induction v as [|x t IH]; simpl.
  - unfold Rdiv; ring.
  - rewrite IH. field. exact Hn.
Qed.

(** A row whose norm is not below the threshold leaves [F.normalize] with
    norm one. *)
Lemma normalize_row_unit (v : vec) :
  (1 / 1000000000000 <= Flow.l2_norm v)%R ->
  Flow.l2_norm (Flow.normalize_row v) = 1%R.
Proof.
  intro Hn. unfold Flow.normalize_row.
  rewrite Rmax_left by exact Hn.
  assert (Hpos : (0 < Flow.l2_norm v)%R) by lra.
  unfold Flow.l2_norm at 1.
  rewrite rsum_squares_scaled by lra.
  unfold Flow.l2_norm.
  rewrite sqrt_sqrt by apply rsum_squares_nonneg.
  assert (Hs : (0 < rsum (map (fun x => x * x) v))%R).
  { unfold Flow.l2_norm in Hpos.
    destruct (Rle_lt_or_eq_dec _ _ (rsum_squares_nonneg v)) as [H|H];
      [exact H|]. rewrite <- H, sqrt_0 in Hpos. lra. }
  replace (rsum (map (fun x => x * x) v) / rsum (map (fun x => x * x) v))%R
    with 1%R by (field; lra).
  apply sqrt_1.
Qed.

Lemma transpose12_shape (f c : nat) (h : tensor3) :
  (1 <= f)%nat -> has_shape3 1 f c h ->
  has_shape3 1 c f (Flow.transpose12 (Flow.shape1 (hd [] h)) h).
Proof.
  intros Hf [Hb Hrows].
  destruct h as [|frames [|h2 rest]]; try discriminate Hb.
  inversion Hrows as [|? ? [Hlen Hfr] _]; subst.
  simpl hd.
  assert (Hc : Flow.shape1 frames = c).
  { destruct frames as [|r frames']; [simpl in Hf; lia|].
    simpl. inversion Hfr; assumption. }
  rewrite Hc. split; [reflexivity|]. constructor; [|constructor].
  unfold Flow.transpose_cols. split; [rewrite length_map, length_seq; reflexivity|].
  apply Forall_map, Forall_forall. intros j _.
  unfold has_shape1. apply length_map.
Qed.

Lemma drop_frames_shape (p b c f : nat) (x : tensor3) :
  has_shape3 b c f x -> has_shape3 b c (f - p) (Flow.drop_frames p x).
Proof.
  intros [Hb Hrows]. unfold Flow.drop_frames.
  split; [rewrite length_map; assumption|].
  apply Forall_map. eapply Forall_impl; [|exact Hrows].
  intros mtx [Hc Hm]. split; [rewrite length_map; assumption|].
  apply Forall_map. eapply Forall_impl; [|exact Hm].
  intros r Hr. unfold has_shape1 in *. rewrite length_skipn, Hr. reflexivity.
Qed.


Lemma pad_mask_is_shaped : Flow.pad_mask_shaped Flow.pad_mask.
Proof.
  intros n Hn. unfold Flow.pad_mask. cbn [Flow.zmax fold_left rbind].
  destruct (Z.ltb_spec n 0) as [Hneg|_]; [lia|].
  eexists; split; [reflexivity|].
  split; [reflexivity|]. constructor; [|constructor].
  unfold has_shape1. rewrite length_map, length_seq. reflexivity.
Qed.

Lemma echo_model_layers_shaped : Flow.layers_shaped 1 Flow.echo_model.
Proof.
  split; [|split].
  - intros x lens g b s Hx. exists x, [], g. split; [reflexivity|exact Hx].
  - intros h fl g b s Hs Hfl [Hb Hrows].
    eexists _, _, g. split; [reflexivity|].
    split; [rewrite length_map; exact Hb|].
    apply Forall_map. eapply Forall_impl; [|exact Hrows].
    intros frames [Hlen Hfr]. simpl hd.
    split; [apply repeat_length|].
    apply Forall_forall. intros r Hr. apply repeat_spec in Hr. subst r.
    destruct frames as [|r0 frames']; [simpl in Hlen; lia|].
    inversion Hfr; assumption.
  - intros mu mask spks cond n g b c f Hmu.
    exists mu, g. split; [reflexivity|exact Hmu].
Qed.


(** * Further properties of the code *)

(** ** [LayerNrom] *)

Lemma rsum_affine (a c : R) (x : vec) :
  rsum (map (fun xi => a * xi + c)%R x) = (a * rsum x + INR (length x) * c)%R.
Proof.
  induction x as [|y t IH].
  - simpl. ring.
  - cbn [map rsum fold_right]. fold (rsum (map (fun xi => (a * xi + c)%R) t)).
    rewrite IH. change (length (y :: t)) with (S (length t)).
    rewrite S_INR. fold (rsum t). ring.
Qed.

Lemma combine_repeat_l {A B : Type} (a : A) (l : list B) :
  combine (repeat a (length l)) l = map (fun y => (a, y)) l.
Proof. induction l as [|y t IH]; simpl; [reflexivity|rewrite IH; reflexivity]. Qed.

Lemma combine_repeat_r {A B : Type} (b : B) (l : list A) :
  combine l (repeat b (length l)) = map (fun x => (x, b)) l.
Proof. induction l as [|y t IH]; simpl; [reflexivity|rewrite IH; reflexivity]. Qed.

(** The closed form of [LayerNrom.forward] at initialisation. *)
Lemma LayerNrom_init_forward_row (x : vec) :
  GPT2.LayerNrom.forward_row (GPT2.LayerNrom.init (length x)) x
  = Ok (map (fun xi =>
               (1 * ((xi - GPT2.LayerNrom.mean x)
                     / sqrt (GPT2.LayerNrom.var x + 1 / 100000))
                - GPT2.LayerNrom.mean x + 0)%R) x).
Proof.
  unfold GPT2.LayerNrom.forward_row, GPT2.LayerNrom.init, vmul, vadd.
  cbn [GPT2.LayerNrom.scale GPT2.LayerNrom.shift GPT2.LayerNrom.eps].
  unfold GPT2.LayerNrom.norm_x. cbn [GPT2.LayerNrom.eps].
  rewrite bzipM_pure by (rewrite repeat_length, length_map; reflexivity).
  cbn [rbind].
  rewrite bzipM_pure
    by (rewrite !length_map, length_combine, !repeat_length, length_map; lia).
  f_equal.
  rewrite <- (length_map (fun xi : R =>
                ((xi - GPT2.LayerNrom.mean x)
                 / sqrt (GPT2.LayerNrom.var x + 1 / 100000))%R) x) at 1.
  rewrite combine_repeat_l, !map_map. cbn [fst snd].
  rewrite <- (length_map (fun xi : R =>
                (1 * ((xi - GPT2.LayerNrom.mean x)
                      / sqrt (GPT2.LayerNrom.var x + 1 / 100000))
                 - GPT2.LayerNrom.mean x)%R) x).
  rewrite combine_repeat_r, !map_map. cbn [fst snd]. reflexivity.
Qed.

(** X1. At initialisation the output of [LayerNrom] is not centred: on a
    non-empty vector its mean is minus the mean of the input. *)
Theorem LayerNrom_init_output_mean (x out : vec) :
  x <> [] ->
  GPT2.LayerNrom.forward_row (GPT2.LayerNrom.init (length x)) x = Ok out ->
  length out = length x /\
  GPT2.LayerNrom.mean out = (- GPT2.LayerNrom.mean x)%R.
Proof.
  intros Hne Hout. rewrite LayerNrom_init_forward_row in Hout.
  inversion Hout; subst out; clear Hout.
  split; [apply length_map|].
  set (m := GPT2.LayerNrom.mean x).
  set (s := sqrt (GPT2.LayerNrom.var x + 1 / 100000)).
  unfold GPT2.LayerNrom.mean at 1. rewrite length_map.
  rewrite (map_ext _ (fun xi => (/ s) * xi + (- m * / s - m))%R)
    by (intro xi; unfold Rdiv; ring).
  rewrite rsum_affine.
  assert (Hn : INR (length x) <> 0%R).
  { apply not_0_INR. destruct x; [contradiction|discriminate]. }
  assert (Hsum : rsum x = (INR (length x) * m)%R).
  { unfold m, GPT2.LayerNrom.mean. field. exact Hn. }
  rewrite Hsum. generalize (/ s)%R. intro r. field. exact Hn.
Qed.

Lemma LayerNrom_init_output_mean_witness :
  GPT2.LayerNrom.mean [(-1)%R; (-1)%R] = (- GPT2.LayerNrom.mean [1%R; 1%R])%R.
Proof.
  assert (Hne : [1%R; 1%R] <> []) by discriminate.
  assert (Hrun : GPT2.LayerNrom.forward_row (GPT2.LayerNrom.init (length [1%R; 1%R]))
                   [1%R; 1%R] = Ok [(-1)%R; (-1)%R]).
  { rewrite LayerNrom_init_forward_row.
    assert (Hmean : GPT2.LayerNrom.mean [1; 1]%R = 1%R)
      by (unfold GPT2.LayerNrom.mean, rsum; simpl; lra).
    rewrite Hmean. simpl. repeat f_equal; unfold Rdiv; ring. }
  exact (proj2 (LayerNrom_init_output_mean [1%R; 1%R] [(-1)%R; (-1)%R] Hne Hrun)).
Defined.

(** X2. On every vector of the layer's width, each entry of the output of
    [LayerNrom] is the entry of the standard layer normalisation minus the
    mean of the input. *)
Theorem LayerNrom_forward_row_entries (ln : GPT2.LayerNrom.t) (x : vec) :
  length (GPT2.LayerNrom.scale ln) = length x ->
  length (GPT2.LayerNrom.shift ln) = length x ->
  exists std out,
    GPT2.LayerNrom.layer_norm_row ln x = Ok std /\
    GPT2.LayerNrom.forward_row ln x = Ok out /\
    length out = length x /\
    forall i, (i < length x)%nat ->
      nth i out 0%R = (nth i std 0 - GPT2.LayerNrom.mean x)%R.
Proof.
  intros Hsc Hsh.
  destruct (LayerNrom_forward_row_shifted ln x Hsc Hsh) as [std [Hstd [Hlen Hout]]].
  exists std, (map (fun y => (y - GPT2.LayerNrom.mean x)%R) std).
  split; [exact Hstd|]. split; [exact Hout|].
  split; [rewrite length_map; exact Hlen|].
  intros i Hi.
  rewrite (nth_indep _ 0%R ((fun y => (y - GPT2.LayerNrom.mean x)%R) 0%R))
    by (rewrite length_map; lia).
  apply (map_nth (fun y => (y - GPT2.LayerNrom.mean x)%R)).
Qed.

Lemma LayerNrom_forward_row_entries_witness :
  exists std out,
    GPT2.LayerNrom.layer_norm_row (GPT2.LayerNrom.init 2) [1; 3]%R = Ok std /\
    GPT2.LayerNrom.forward_row (GPT2.LayerNrom.init 2) [1; 3]%R = Ok out /\
    length out = length [1; 3]%R /\
    forall i, (i < length [1; 3]%R)%nat ->
      nth i out 0%R = (nth i std 0 - GPT2.LayerNrom.mean [1; 3])%R.
Proof.
  exact (LayerNrom_forward_row_entries (GPT2.LayerNrom.init 2) [1; 3]%R
           eq_refl eq_refl).
Defined.

(** X3. [LayerNrom.forward] raises a [RuntimeError] on a non-empty tensor
    whose last dimension is neither the layer's width nor one (and the
    layer's width is not one): the product with [scale] cannot be
    broadcast. *)
Theorem LayerNrom_forward_width_mismatch (ln : GPT2.LayerNrom.t)
    (b s d : nat) (x : tensor3) :
  has_shape3 b s d x -> (1 <= b)%nat -> (1 <= s)%nat ->
  d <> length (GPT2.LayerNrom.scale ln) -> d <> 1%nat ->
  length (GPT2.LayerNrom.scale ln) <> 1%nat ->
  GPT2.LayerNrom.forward ln x = Err RuntimeError.
Proof.
  intros [Hb Hrows] Hb1 Hs1 Hd Hd1 He1.
  destruct x as [|frames rest]; [simpl in Hb; lia|].
  inversion Hrows as [|? ? [Hlen Hfr] _]; subst.
  destruct frames as [|r frames']; [simpl in Hs1; lia|].
  inversion Hfr as [|? ? Hr _]; subst. unfold has_shape1 in *.
  assert (Hrow : GPT2.LayerNrom.forward_row ln r = Err RuntimeError).
  { unfold GPT2.LayerNrom.forward_row, vmul, bzipM.
    assert (Hn : length (GPT2.LayerNrom.norm_x ln r) = length r)
      by (unfold GPT2.LayerNrom.norm_x; apply length_map).
    rewrite Hn.
    destruct (Nat.eqb_spec (length (GPT2.LayerNrom.scale ln)) (length r))
      as [Heq|_]; [congruence|].
    destruct (GPT2.LayerNrom.scale ln) as [|s0 [|s1 sc]];
      destruct (GPT2.LayerNrom.norm_x ln r) as [|n0 [|n1 nx]];
      simpl in *; try reflexivity; congruence. }
  unfold GPT2.LayerNrom.forward. cbn [mapM]. rewrite Hrow. reflexivity.
Qed.

Lemma LayerNrom_forward_width_mismatch_witness :
  GPT2.LayerNrom.forward (GPT2.LayerNrom.init 2) [[[1; 2; 3]]]%R
  = Err RuntimeError.
Proof.
  assert (Hs : has_shape3 1 1 3 [[[1; 2; 3]]]%R)
    by (split; [reflexivity|repeat constructor]).
  assert (H1 : (1 <= 1)%nat) by lia.
  assert (Hd : 3%nat <> length (GPT2.LayerNrom.scale (GPT2.LayerNrom.init 2)))
    by (simpl; lia).
  assert (Hd1 : 3%nat <> 1%nat) by lia.
  assert (He1 : length (GPT2.LayerNrom.scale (GPT2.LayerNrom.init 2)) <> 1%nat)
    by (simpl; lia).
  exact (LayerNrom_forward_width_mismatch (GPT2.LayerNrom.init 2) 1 1 3
           [[[1; 2; 3]]]%R Hs H1 H1 Hd Hd1 He1).
Defined.

(** ** [GELU] *)

Lemma tanh_odd (y : R) : tanh (- y) = (- tanh y)%R.
Proof.
  unfold tanh, sinh, cosh. rewrite Ropp_involutive.
  pose proof (exp_pos y). pose proof (exp_pos (- y)).
  field. repeat split; lra.
Qed.

Lemma tanh_bounds (y : R) : (-1 < tanh y < 1)%R.
Proof.
  unfold tanh, sinh, cosh.
  pose proof (exp_pos y) as Ha. pose proof (exp_pos (- y)) as Hb.
  set (a := exp y) in *. set (b := exp (- y)) in *.
  assert (Hc : (0 < (a + b) / 2)%R) by lra.
  split.
  - apply (Rmult_lt_reg_r ((a + b) / 2)); [exact Hc|].
    replace ((a - b) / 2 / ((a + b) / 2) * ((a + b) / 2))%R with ((a - b) / 2)%R
      by (field; lra).
    lra.
  - apply (Rmult_lt_reg_r ((a + b) / 2)); [exact Hc|].
    replace ((a - b) / 2 / ((a + b) / 2) * ((a + b) / 2))%R with ((a - b) / 2)%R
      by (field; lra).
    lra.
Qed.

Lemma tanh_nonneg (y : R) : (0 <= y)%R -> (0 <= tanh y)%R.
Proof.
  intro Hy. unfold tanh, sinh, cosh.
  pose proof (exp_pos y) as Ha. pose proof (exp_pos (- y)) as Hb.
  assert (Hab : (exp (- y) <= exp y)%R).
  { destruct (Req_dec y 0) as [->|Hne].
    - rewrite Ropp_0. lra.
    - left. apply exp_increasing. lra. }
  apply Rmult_le_pos; [lra|].
  left. apply Rinv_0_lt_compat. lra.
Qed.

Lemma GELU_argument_odd (x : R) :
  (sqrt (2 / PI) * (- x + 0.044715 * (- x * - x * - x))
   = - (sqrt (2 / PI) * (x + 0.044715 * (x * x * x))))%R.
Proof. ring. Qed.

(** X4. [GELU] lies between half its argument and the rectifier:
    [x / 2 <= GELU(x) <= max(0, x)] for every real [x]. *)
Theorem GELU_between_half_and_relu (x : R) :
  (x / 2 <= GPT2.GELU.forward_scalar x <= Rmax 0 x)%R.
Proof.
  unfold GPT2.GELU.forward_scalar.
  set (y := (sqrt (2 / PI) * (x + 0.044715 * (x * x * x)))%R).
  pose proof (tanh_bounds y) as [Hlo Hhi].
  pose proof (sqrt_pos (2 / PI)) as Hs.
  destruct (Rle_dec 0 x) as [Hx|Hx].
  - rewrite Rmax_right by exact Hx.
    assert (Hy : (0 <= y)%R).
    { unfold y. apply Rmult_le_pos; [exact Hs|]. nra. }
    pose proof (tanh_nonneg y Hy) as Ht. nra.
  - rewrite Rmax_left by lra.
    assert (Hy : (0 <= - y)%R).
    { unfold y. rewrite <- GELU_argument_odd.
      apply Rmult_le_pos; [exact Hs|]. nra. }
    pose proof (tanh_nonneg (- y) Hy) as Ht. rewrite tanh_odd in Ht. nra.
Qed.

(** X5. [GELU(x) - GELU(-x) = x] for every real [x]. *)
Theorem GELU_minus_reflection (x : R) :
  (GPT2.GELU.forward_scalar x - GPT2.GELU.forward_scalar (- x) = x)%R.
Proof.
  unfold GPT2.GELU.forward_scalar.
  rewrite GELU_argument_odd, tanh_odd.
  generalize (tanh (sqrt (2 / PI) * (x + 0.044715 * (x * x * x)))).
  intro t. lra.
Qed.

(** ** Errors of the layers *)

Lemma shape3_first {A : Type} (b s d : nat) (x : list (list (list A))) :
  has_shape3 b s d x -> (1 <= b)%nat -> (1 <= s)%nat ->
  exists r frames rest, x = (r :: frames) :: rest /\ length r = d.
Proof.
  intros [Hb Hrows] Hb1 Hs1.
  destruct x as [|frames rest]; [simpl in Hb; lia|].
  inversion Hrows as [|? ? [Hlen Hfr] _]; subst.
  destruct frames as [|r frames']; [simpl in Hs1; lia|].
  inversion Hfr as [|? ? Hr _]; subst.
  exists r, frames', rest. split; [reflexivity|exact Hr].
Qed.

Lemma mapM_only_err {A B : Type} (f : A -> result B) (e : exn) (l : list A) :
  (forall x, In x l -> (exists y, f x = Ok y) \/ f x = Err e) ->
  (exists ys, mapM f l = Ok ys) \/ mapM f l = Err e.
Proof.
  induction l as [|x t IH]; intro Hf; simpl.
  - left; eexists; reflexivity.
  - destruct (Hf x (or_introl eq_refl)) as [[y Hy]|Hx]; rewrite ?Hy, ?Hx; simpl;
      [|right; reflexivity].
    destruct IH as [[ys Hys]|Ht].
    + intros z Hz. apply Hf. right; exact Hz.
    + rewrite Hys. left; eexists; reflexivity.
    + rewrite Ht. right; reflexivity.
Qed.

Lemma mapM_some_err {A B : Type} (f : A -> result B) (e : exn) (l : list A) :
  (forall x, In x l -> (exists y, f x = Ok y) \/ f x = Err e) ->
  (exists x, In x l /\ f x = Err e) ->
  mapM f l = Err e.
Proof.
  induction l as [|x t IH]; intros Hf [z [Hz Hze]]; [contradiction|]. simpl.
  destruct (Hf x (or_introl eq_refl)) as [[y Hy]|Hx]; [|rewrite Hx; reflexivity].
  rewrite Hy; simpl.
  destruct Hz as [->|Hz]; [congruence|].
  rewrite IH; [reflexivity| |].
  - intros w Hw. apply Hf. right; exact Hw.
  - exists z. split; assumption.
Qed.

Lemma Embedding_forward_cases (w : tensor2) (i : Z) :
  (exists row, nn.Embedding.forward w i = Ok row) \/
  nn.Embedding.forward w i = Err IndexError.
Proof.
  unfold nn.Embedding.forward.
  destruct (i <? 0)%Z; [right; reflexivity|].
  destruct (nth_error w (Z.to_nat i)) as [row|];
    [left; eexists; reflexivity|right; reflexivity].
Qed.

Lemma Embedding_forward_out_of_range (w : tensor2) (i : Z) :
  (i < 0 \/ Z.of_nat (length w) <= i)%Z ->
  nn.Embedding.forward w i = Err IndexError.
Proof.
  intro Hi. unfold nn.Embedding.forward.
  destruct (Z.ltb_spec i 0) as [_|Hpos]; [reflexivity|].
  destruct (nth_error w (Z.to_nat i)) as [row|] eqn:E; [|reflexivity].
  assert (Hlt : (Z.to_nat i < length w)%nat)
    by (apply nth_error_Some; rewrite E; discriminate).
  lia.
Qed.

Lemma Embedding_rows_cases (w : tensor2) (toks : tokens) :
  (exists e, mapM (mapM (nn.Embedding.forward w)) toks = Ok e) \/
  mapM (mapM (nn.Embedding.forward w)) toks = Err IndexError.
Proof.
  apply mapM_only_err. intros row _.
  apply mapM_only_err. intros id _. apply Embedding_forward_cases.
Qed.

Lemma Embedding_rows_out_of_range (w : tensor2) (toks : tokens)
    (row : list Z) (id : Z) :
  In row toks -> In id row ->
  (id < 0 \/ Z.of_nat (length w) <= id)%Z ->
  mapM (mapM (nn.Embedding.forward w)) toks = Err IndexError.
Proof.
  intros Hrow Hid Hout.
  apply mapM_some_err.
  - intros r _. apply mapM_only_err. intros i _. apply Embedding_forward_cases.
  - exists row. split; [exact Hrow|].
    apply mapM_some_err.
    + intros i _. apply Embedding_forward_cases.
    + exists id. split; [exact Hid|].
      apply Embedding_forward_out_of_range; exact Hout.
Qed.

Lemma Linear_forward_row_cases (l : nn.Linear.t) (x : vec) :
  (exists y, nn.Linear.forward_row l x = Ok y) \/
  nn.Linear.forward_row l x = Err RuntimeError.
Proof.
  unfold nn.Linear.forward_row.
  destruct (Nat.eqb (length x) (nn.Linear.in_features l)); [|right; reflexivity].
  destruct (nn.Linear.bias l); left; eexists; reflexivity.
Qed.

(** X6. A feed-forward layer built for [emb_dim] accepts a non-empty
    [b x s x d] tensor exactly when [d = emb_dim], and then keeps its shape;
    on any other width it raises a [RuntimeError]. *)
Theorem FeedForward_forward_width (cfg : GPT2.Config) (f : GPT2.FeedForward.t)
    (b s d : nat) (x : tensor3) :
  GPT2.FeedForward_built cfg f ->
  has_shape3 b s d x -> (1 <= b)%nat -> (1 <= s)%nat ->
  (d = GPT2.emb_dim cfg ->
   exists y, GPT2.FeedForward.forward f x = Ok y /\
             has_shape3 b s (GPT2.emb_dim cfg) y) /\
  (d <> GPT2.emb_dim cfg -> GPT2.FeedForward.forward f x = Err RuntimeError).
Proof.
  intros Hf Hx Hb Hs. split.
  - intros ->. apply (FeedForward_forward_shape cfg); assumption.
  - intro Hd.
    destruct (shape3_first b s d x Hx Hb Hs) as [r [frames [rest [-> Hr]]]].
    destruct Hf as [[Hin _] _].
    unfold GPT2.FeedForward.forward, nn.Linear.forward. cbn [mapM].
    unfold nn.Linear.forward_row at 1. rewrite Hr, Hin.
    destruct (Nat.eqb_spec d (GPT2.emb_dim cfg)) as [Heq|_]; [contradiction|].
    reflexivity.
Qed.

Lemma FeedForward_forward_width_witness :
  (1%nat = GPT2.emb_dim GPT2.tiny_config ->
   exists y, GPT2.FeedForward.forward (GPT2.ff GPT2.tiny_block) [[[2%R]]] = Ok y /\
             has_shape3 1 1 (GPT2.emb_dim GPT2.tiny_config) y) /\
  (1%nat <> GPT2.emb_dim GPT2.tiny_config ->
   GPT2.FeedForward.forward (GPT2.ff GPT2.tiny_block) [[[2%R]]] = Err RuntimeError).
Proof.
  assert (Hf : GPT2.FeedForward_built GPT2.tiny_config (GPT2.ff GPT2.tiny_block)).
  { split; (split; [reflexivity|]; split; [reflexivity|]; split;
      [split; [reflexivity|repeat constructor]|split; reflexivity]). }
  assert (Hx : has_shape3 1 1 1 [[[2%R]]])
    by (split; [reflexivity|repeat constructor]).
  assert (H1 : (1 <= 1)%nat) by lia.
  exact (FeedForward_forward_width GPT2.tiny_config (GPT2.ff GPT2.tiny_block)
           1 1 1 [[[2%R]]] Hf Hx H1 H1).
Defined.

(** ** Errors of [GPTModel.forward] *)

(** X7. When some token id is negative or not below the number of rows of
    the token-embedding table, [GPTModel.forward] raises an [IndexError]
    before any dropout layer or transformer block has run: the generator
    state is untouched. *)
Theorem GPTModel_forward_unknown_token {G : Type} (m : GPT2.GPTModel (G := G))
    (in_idx : tokens) (row : list Z) (id : Z) (g : G) :
  In row in_idx -> In id row ->
  (id < 0 \/ Z.of_nat (length (GPT2.tok_emb m)) <= id)%Z ->
  GPT2.GPTModel_forward m in_idx g = (Err IndexError, g).
Proof.
  intros Hrow Hid Hout. unfold GPT2.GPTModel_forward, bind, lift.
  rewrite (Embedding_rows_out_of_range _ _ row id Hrow Hid Hout). reflexivity.
Qed.

Lemma GPTModel_forward_unknown_token_witness :
  GPT2.GPTModel_forward GPT2.tiny_model [[0; 2]%Z] tt = (Err IndexError, tt).
Proof.
  assert (Hrow : In [0; 2]%Z [[0; 2]%Z]) by (left; reflexivity).
  assert (Hid : In 2%Z [0; 2]%Z) by (right; left; reflexivity).
  assert (Hout : (2 < 0 \/ Z.of_nat (length (GPT2.tok_emb GPT2.tiny_model)) <= 2)%Z)
    by (right; simpl; lia).
  exact (GPTModel_forward_unknown_token GPT2.tiny_model [[0; 2]%Z] [0; 2]%Z 2%Z tt
           Hrow Hid Hout).
Defined.

(** X8. On a non-empty batch whose sequences are longer than the
    position-embedding table, [GPTModel.forward] raises an [IndexError]
    before any dropout layer or transformer block has run, whatever the
    token ids are. *)
Theorem GPTModel_forward_sequence_too_long {G : Type}
    (m : GPT2.GPTModel (G := G)) (in_idx : tokens) (b s : nat) (g : G) :
  has_shape2 b s in_idx -> (1 <= b)%nat ->
  (length (GPT2.pos_emb m) < s)%nat ->
  GPT2.GPTModel_forward m in_idx g = (Err IndexError, g).
Proof.
  intros Hshape Hb Hlong. unfold GPT2.GPTModel_forward, bind, lift.
  rewrite (seq_len_of_shape b s in_idx Hshape Hb).
  destruct (Embedding_rows_cases (GPT2.tok_emb m) in_idx) as [[te ->]| ->];
    [|reflexivity].
  assert (Hpos : mapM (nn.Embedding.forward (GPT2.pos_emb m)) (GPT2.arange s)
                 = Err IndexError).
  { apply mapM_some_err.
    - intros i _. apply Embedding_forward_cases.
    - exists (Z.of_nat (length (GPT2.pos_emb m))). split.
      + unfold GPT2.arange. apply in_map. apply in_seq. lia.
      + apply Embedding_forward_out_of_range. right. lia. }
  rewrite Hpos. reflexivity.
Qed.

Lemma GPTModel_forward_sequence_too_long_witness :
  GPT2.GPTModel_forward GPT2.tiny_model [[0; 0; 0]%Z] tt = (Err IndexError, tt).
Proof.
  assert (Hs : has_shape2 1 3 [[0; 0; 0]%Z])
    by (split; [reflexivity|repeat constructor]).
  assert (Hb : (1 <= 1)%nat) by lia.
  assert (Hl : (length (GPT2.pos_emb GPT2.tiny_model) < 3)%nat) by (simpl; lia).
  exact (GPTModel_forward_sequence_too_long GPT2.tiny_model [[0; 0; 0]%Z] 1 3 tt
           Hs Hb Hl).
Defined.

(** ** The generation loop on a vocabulary *)

Lemma argmax_lt_length (v : vec) (i : nat) :
  argmax v = Ok i -> (i < length v)%nat.
Proof. intro H. apply argmax_first_max in H. apply H. Qed.

Lemma append_greedy_in_vocab (v : nat) (idx idx' : tokens) (logits : tensor3) :
  Forall (Forall (has_shape1 v)) logits ->
  GPT2.ids_in_vocab v idx ->
  GPT2.append_greedy idx logits = Ok idx' ->
  GPT2.ids_in_vocab v idx'.
Proof.
  intros Hl Hidx Happ.
  destruct (append_greedy_spec _ _ _ Happ) as [Hlen [_ Hrows]].
  unfold GPT2.ids_in_vocab in *. apply Forall_forall. intros row' Hin.
  destruct (In_nth_error _ _ Hin) as [b Hb].
  assert (Hblt : (b < length idx)%nat).
  { rewrite <- Hlen. apply nth_error_Some. rewrite Hb; discriminate. }
  destruct (nth_error idx b) as [row|] eqn:Hrow;
    [|apply nth_error_None in Hrow; lia].
  destruct (Hrows b row Hrow) as [seq [i [Hseq [Hne [Harg Hnew]]]]].
  rewrite Hb in Hnew. inversion Hnew; subst row'.
  apply Forall_app. split.
  - rewrite Forall_forall in Hidx. apply Hidx. eapply nth_error_In; exact Hrow.
  - constructor; [|constructor].
    apply argmax_lt_length in Harg. rewrite softmax_length in Harg.
    assert (Hlast : length (last seq []) = v).
    { apply (last_Forall (has_shape1 v)); [exact Hne|].
      rewrite Forall_forall in Hl. apply Hl. eapply nth_error_In; exact Hseq. }
    lia.
Qed.

Lemma lastn_in_vocab (v c : nat) (idx : tokens) :
  GPT2.ids_in_vocab v idx -> GPT2.ids_in_vocab v (map (lastn c) idx).
Proof.
  unfold GPT2.ids_in_vocab. intro H. apply Forall_map.
  eapply Forall_impl; [|exact H].
  intros row Hrow. apply Forall_forall. intros id Hid.
  rewrite Forall_forall in Hrow. apply Hrow.
  unfold lastn in Hid. eapply skipn_In; exact Hid.
Qed.

Lemma shape3_rows (b s v : nat) (x : tensor3) :
  has_shape3 b s v x -> Forall (Forall (has_shape1 v)) x.
Proof.
  intros [_ H]. eapply Forall_impl; [|exact H]. intros m [_ Hm]; exact Hm.
Qed.

(** The logits of a built model on ids of its vocabulary, shape only. *)
Lemma GPTModel_forward_shape {G : Type} (cfg : GPT2.Config)
    (m : GPT2.GPTModel (G := G)) (in_idx : tokens) (b s : nat) (g : G) :
  GPT2.GPTModel_built cfg m ->
  has_shape2 b s in_idx ->
  (s <= GPT2.context_length cfg)%nat ->
  GPT2.ids_in_vocab (GPT2.vocab_size cfg) in_idx ->
  exists logits g',
    GPT2.GPTModel_forward m in_idx g = (Ok logits, g') /\
    has_shape3 b s (GPT2.vocab_size cfg) logits.
Proof.
  intros [Htok [Hpos [Hdrop [Hn [Hblocks [[Hfs Hfh] Hout]]]]]] Hshape Hs Hids.
  destruct (seq_len_of_normal b s in_idx Hshape) as [Hshape' [Hs' Hback]].
  set (s' := GPT2.seq_len_of in_idx) in *.
  assert (Hs'' : (s' <= GPT2.context_length cfg)%nat) by lia.
  set (e := GPT2.emb_dim cfg) in *.
  assert (Htokens : exists te, mapM (mapM (nn.Embedding.forward (GPT2.tok_emb m)))
                                    in_idx = Ok te /\ has_shape3 b s' e te).
  { destruct Hshape' as [Hb Hrows].
    destruct (mapM_shape (mapM (nn.Embedding.forward (GPT2.tok_emb m)))
                (fun row => has_shape1 s' row /\
                            Forall (fun id => (0 <= id < Z.of_nat (GPT2.vocab_size cfg))%Z) row)
                (has_shape2 s' e) in_idx) as [te [Hte [Hlen HQ]]].
    - apply Forall_and; [exact Hrows|exact Hids].
    - intros row [Hrow Hin].
      destruct (mapM_shape (nn.Embedding.forward (GPT2.tok_emb m)) _
                  (has_shape1 e) row Hin) as [r [Hr [Hlr HQr]]].
      + intros id Hid.
        destruct (Embedding_forward_ok _ _ _ id Htok Hid) as [v [Hv [Hlv _]]].
        exists v; split; assumption.
      + exists r. split; [assumption|].
        split; [unfold has_shape1 in Hrow; lia|assumption].
    - exists te. split; [assumption|]. split; [lia|assumption]. }
  destruct Htokens as [te [Hte Ste]].
  assert (Hpositions : exists pe, mapM (nn.Embedding.forward (GPT2.pos_emb m))
                                       (GPT2.arange s') = Ok pe /\ has_shape2 s' e pe).
  { destruct (arange_in_range s') as [Hlen Hrange].
    destruct (mapM_shape (nn.Embedding.forward (GPT2.pos_emb m)) _
                (has_shape1 e) (GPT2.arange s') Hrange) as [pe [Hpe [Hlp HQp]]].
    - intros i Hi.
      assert (Hi' : (0 <= i < Z.of_nat (GPT2.context_length cfg))%Z) by lia.
      destruct (Embedding_forward_ok _ _ _ i Hpos Hi') as [v [Hv [Hlv _]]].
      exists v; split; assumption.
    - exists pe. split; [assumption|]. split; [lia|assumption]. }
  destruct Hpositions as [pe [Hpe Spe]].
  destruct (tadd_rank2_shape b s' e te pe Ste Spe) as [x0 [E0 S0]].
  destruct (Hdrop b s' x0 g Hs'' S0) as [x1 [g1 [E1 S1]]].
  destruct (Sequential_forward_shape cfg _ b s' x1 g1 Hblocks Hs'' S1)
    as [x2 [g2 [E2 S2]]].
  destruct (LayerNrom_forward_shape _ b s' e x2 Hfs Hfh S2) as [x3 [E3 S3]].
  destruct (Linear_forward_shape _ _ _ _ b s' x3 Hout S3) as [logits [E4 S4]].
  exists logits, g2. split.
  - unfold GPT2.GPTModel_forward, bind, lift. fold s'.
    rewrite Hte, Hpe, E0, E1, E2, E3, E4. reflexivity.
  - apply Hback. assumption.
Qed.

(** X9. Generating [a + b] tokens is generating [a] tokens and then [b]
    more from the result, with the generator state threaded through; an
    error of the first part is the error of the whole. *)
Theorem generate_text_simple_compose {G : Type} (model : tokens -> M G tensor3)
    (idx : tokens) (a b context_size : Z) (g : G) :
  (0 <= a)%Z -> (0 <= b)%Z ->
  GPT2.generate_text_simple model idx (a + b) context_size g
  = bind (GPT2.generate_text_simple model idx a context_size)
         (fun mid => GPT2.generate_text_simple model mid b context_size) g.
Proof.
  intros Ha Hb. unfold GPT2.generate_text_simple.
  rewrite Z2Nat.inj_add by assumption.
  apply generate_loop_add.
Qed.

Lemma generate_text_simple_compose_witness :
  GPT2.generate_text_simple GPT2.constant_model [[5; 6]%Z] (1 + 1) 1 tt
  = bind (GPT2.generate_text_simple GPT2.constant_model [[5; 6]%Z] 1 1)
         (fun mid => GPT2.generate_text_simple GPT2.constant_model mid 1 1) tt.
Proof.
  assert (H01 : (0 <= 1)%Z) by lia.
  exact (generate_text_simple_compose GPT2.constant_model [[5; 6]%Z] 1 1 1 tt
           H01 H01).
Defined.

(** X10. When every logits vector that the model returns has [v] entries
    and the prompt holds ids below [v], every sequence that
    [generate_text_simple] returns holds ids below [v]: the generated
    tokens can be fed to the model again. *)
Theorem generate_tokens_in_vocabulary {G : Type} (model : tokens -> M G tensor3)
    (v : nat) (idx : tokens) (max_new_tokens context_size : Z)
    (g g' : G) (out : tokens) :
  (forall x g0 logits g1,
      model x g0 = (Ok logits, g1) -> Forall (Forall (has_shape1 v)) logits) ->
  GPT2.ids_in_vocab v idx ->
  GPT2.generate_text_simple model idx max_new_tokens context_size g = (Ok out, g') ->
  GPT2.ids_in_vocab v out.
Proof.
  intros Hm Hidx. unfold GPT2.generate_text_simple.
  generalize (Z.to_nat max_new_tokens) as k. intro k. revert idx g Hidx.
  induction k as [|k IH]; intros idx g Hidx H; simpl in H.
  - unfold ret in H. inversion H; subst; assumption.
  - apply bind_ok_inv in H. destruct H as [s [g1 [Hs H]]].
    apply generate_step_inv in Hs. destruct Hs as [logits [Hmod Happ]].
    apply (IH s g1); [|exact H].
    eapply append_greedy_in_vocab; [eapply Hm; exact Hmod|exact Hidx|exact Happ].
Qed.

Lemma generate_tokens_in_vocabulary_witness :
  GPT2.ids_in_vocab 2 [[1; 0; 1; 1]%Z].
Proof.
  assert (Hm : forall x g0 logits g1,
             GPT2.constant_model x g0 = (Ok logits, g1) ->
             Forall (Forall (has_shape1 2)) logits).
  { intros x g0 logits g1 H. unfold GPT2.constant_model, ret in H.
    inversion H; subst. apply Forall_map, Forall_forall. intros row _.
    apply Forall_map, Forall_forall. intros id _. reflexivity. }
  assert (Hidx : GPT2.ids_in_vocab 2 [[1; 0]%Z])
    by (repeat constructor; lia).
  assert (Hrun : GPT2.generate_text_simple GPT2.constant_model [[1; 0]%Z] 2 1 tt
                 = (Ok [[1; 0; 1; 1]%Z], tt)).
  { unfold GPT2.generate_text_simple.
    change (Z.to_nat 2) with 2%nat. cbn [GPT2.generate_loop].
    unfold bind at 1.
    rewrite (constant_model_step 1 [1; 0]%Z [] 0%Z) by reflexivity.
    unfold bind at 1.
    rewrite (constant_model_step 1 ([1; 0] ++ [1])%Z [] 1%Z) by reflexivity.
    reflexivity. }
  exact (generate_tokens_in_vocabulary GPT2.constant_model 2 [[1; 0]%Z] 2 1
           tt tt [[1; 0; 1; 1]%Z] Hm Hidx Hrun).
Defined.

(** X11. Generation with a built [GPTModel] and
    [context_size = context_length], as the script at the end of the file
    calls it, never raises: from a non-empty [b x s] prompt of ids of the
    vocabulary it returns [b x (s + max_new_tokens)] ids of the vocabulary,
    however long the sequence has grown. *)
Theorem generate_with_GPTModel_runs {G : Type} (cfg : GPT2.Config)
    (m : GPT2.GPTModel (G := G)) (idx : tokens) (b s : nat)
    (max_new_tokens : Z) (g : G) :
  GPT2.GPTModel_built cfg m ->
  (1 <= GPT2.vocab_size cfg)%nat ->
  (1 <= GPT2.context_length cfg)%nat ->
  has_shape2 b s idx -> (1 <= s)%nat ->
  GPT2.ids_in_vocab (GPT2.vocab_size cfg) idx ->
  exists out g',
    GPT2.generate_text_simple (GPT2.GPTModel_forward m) idx max_new_tokens
      (Z.of_nat (GPT2.context_length cfg)) g = (Ok out, g') /\
    has_shape2 b (s + Z.to_nat max_new_tokens) out /\
    GPT2.ids_in_vocab (GPT2.vocab_size cfg) out.
Proof.
  intros Hbuilt Hv Hc Hshape Hs Hids. unfold GPT2.generate_text_simple.
  generalize (Z.to_nat max_new_tokens) as k. intro k.
  revert s idx g Hshape Hs Hids.
  induction k as [|k IH]; intros s idx g Hshape Hs Hids; simpl.
  - exists idx, g. rewrite Nat.add_0_r.
    split; [reflexivity|]. split; assumption.
  - assert (Hcs : (1 <= Z.of_nat (GPT2.context_length cfg))%Z) by lia.
    pose proof (lastn_shape (GPT2.context_length cfg) _ _ _ Hshape) as Hwin.
    pose proof (lastn_in_vocab _ (GPT2.context_length cfg) _ Hids) as Hwids.
    assert (Hmin : (1 <= Nat.min (GPT2.context_length cfg) s)%nat) by lia.
    assert (Hfit : (Nat.min (GPT2.context_length cfg) s
                    <= GPT2.context_length cfg)%nat) by lia.
    destruct (GPTModel_forward_shape cfg m _ _ _ g Hbuilt Hwin Hfit Hwids)
      as [logits [g1 [Hm Hlog]]].
    destruct (append_greedy_total _ _ _ _ _ _ Hmin Hv Hshape Hlog)
      as [idx' [Happ Hshape']].
    pose proof (append_greedy_in_vocab _ _ _ _ (shape3_rows _ _ _ _ Hlog)
                  Hids Happ) as Hids'.
    assert (Hs' : (1 <= s + 1)%nat) by lia.
    destruct (IH (s + 1)%nat idx' g1 Hshape' Hs' Hids') as [out [g' [Hloop [Ho Hoi]]]].
    exists out, g'. split; [|split; [|exact Hoi]].
    + assert (Hstep : GPT2.generate_step (GPT2.GPTModel_forward m)
                        (Z.of_nat (GPT2.context_length cfg)) idx g = (Ok idx', g1)).
      { unfold GPT2.generate_step. rewrite idx_cond_last by exact Hcs.
        rewrite Nat2Z.id. erewrite bind_ok; [|exact Hm].
        unfold lift. rewrite Happ. reflexivity. }
      erewrite bind_ok; [|exact Hstep]. exact Hloop.
    + replace (s + S k)%nat with (s + 1 + k)%nat by lia. exact Ho.
Qed.

Lemma generate_with_GPTModel_runs_witness :
  exists out g',
    GPT2.generate_text_simple (GPT2.GPTModel_forward GPT2.tiny_model) [[0; 1]%Z] 3
      (Z.of_nat (GPT2.context_length GPT2.tiny_config)) tt = (Ok out, g') /\
    has_shape2 1 (2 + Z.to_nat 3) out /\
    GPT2.ids_in_vocab (GPT2.vocab_size GPT2.tiny_config) out.
Proof.
  assert (Hv : (1 <= GPT2.vocab_size GPT2.tiny_config)%nat) by (simpl; lia).
  assert (Hc : (1 <= GPT2.context_length GPT2.tiny_config)%nat) by (simpl; lia).
  assert (Hs : has_shape2 1 2 [[0; 1]%Z])
    by (split; [reflexivity|repeat constructor]).
  assert (H2 : (1 <= 2)%nat) by lia.
  assert (Hids : GPT2.ids_in_vocab (GPT2.vocab_size GPT2.tiny_config) [[0; 1]%Z])
    by (repeat constructor; simpl; lia).
  exact (generate_with_GPTModel_runs GPT2.tiny_config GPT2.tiny_model [[0; 1]%Z]
           1 2 3 tt tiny_model_built Hv Hc Hs H2 Hids).
Defined.

(** ** The context window for other values of [context_size] *)

(** X12. With a negative [context_size] the slice [idx[:, -context_size:]]
    does not keep the last tokens: it drops the first [-context_size]
    tokens of every row and hands the rest to the model. *)
Theorem idx_cond_negative_context_size (context_size : Z) (idx : tokens) :
  (context_size < 0)%Z ->
  GPT2.idx_cond context_size idx = map (skipn (Z.to_nat (- context_size))) idx.
Proof.
  intro Hc. unfold GPT2.idx_cond. apply map_ext. intro row.
  unfold py_slice_from.
  destruct (Z.ltb_spec (- context_size) 0) as [H|_]; [lia|].
  destruct (Z.le_ge_cases (- context_size) (Z.of_nat (length row))) as [Hle|Hge].
  - rewrite Z.min_l by exact Hle. reflexivity.
  - rewrite Z.min_r by exact Hge. rewrite Nat2Z.id.
    rewrite skipn_all. symmetry. apply skipn_all2. lia.
Qed.

Lemma idx_cond_negative_context_size_witness :
  GPT2.idx_cond (-2) [[5; 6; 7]%Z] = map (skipn (Z.to_nat (- -2))) [[5; 6; 7]%Z].
Proof.
  assert (Hc : (-2 < 0)%Z) by lia.
  exact (idx_cond_negative_context_size (-2) [[5; 6; 7]%Z] Hc).
Defined.

(** ** [F.normalize] and the speaker embedding *)

Lemma l2_norm_nonneg (v : vec) : (0 <= Flow.l2_norm v)%R.
Proof. unfold Flow.l2_norm. apply sqrt_pos. Qed.

Lemma l2_norm_scaled (k : R) (v : vec) :
  (0 <= k)%R -> Flow.l2_norm (map (Rmult k) v) = (k * Flow.l2_norm v)%R.
Proof.
  intro Hk. unfold Flow.l2_norm.
  assert (Hs : rsum (map (fun x => x * x)%R (map (Rmult k) v))
               = (k * k * rsum (map (fun x => x * x)%R v))%R).
  { induction v as [|x t IH]; simpl; [ring|]. rewrite IH. ring. }
  rewrite Hs, sqrt_mult_alt by nra.
  rewrite sqrt_square by exact Hk. reflexivity.
Qed.

Lemma l2_norm_singleton (x : R) : (0 <= x)%R -> Flow.l2_norm [x] = x.
Proof.
  intro Hx. unfold Flow.l2_norm. simpl. rewrite Rplus_0_r.
  apply sqrt_square; exact Hx.
Qed.

Lemma normalize_row_scaled (k : R) (v : vec) :
  (0 < k)%R ->
  (1 / 1000000000000 <= Flow.l2_norm v)%R ->
  (1 / 1000000000000 <= k * Flow.l2_norm v)%R ->
  Flow.normalize_row (map (Rmult k) v) = Flow.normalize_row v.
Proof.
  intros Hk Hv Hkv. unfold Flow.normalize_row.
  rewrite l2_norm_scaled by lra.
  rewrite !Rmax_left by assumption.
  rewrite map_map. apply map_ext. intro x. field. split; lra.
Qed.


(** X14. [inference] depends on the speaker embedding only through its
    direction: multiplying every row by a positive factor changes nothing,
    as long as the norms stay at or above the threshold [1e-12] of
    [F.normalize]. *)
Theorem inference_speaker_scale_invariant {G : Type}
    (make_pad_mask : list Z -> result (list (list bool)))
    (m : Flow.MaskedDiffWithXvec (G := G))
    (token : tokens) (token_len : list Z)
    (prompt_token : tokens) (prompt_token_len : list Z)
    (prompt_feat : tensor3) (prompt_feat_len : list Z) (embedding : tensor2)
    (k : R) (g : G) :
  (0 < k)%R ->
  Forall (fun v => (1 / 1000000000000 <= Flow.l2_norm v)%R /\
                   (1 / 1000000000000 <= k * Flow.l2_norm v)%R) embedding ->
  Flow.inference make_pad_mask m token token_len prompt_token prompt_token_len
    prompt_feat prompt_feat_len (map (map (Rmult k)) embedding) g
  = Flow.inference make_pad_mask m token token_len prompt_token prompt_token_len
      prompt_feat prompt_feat_len embedding g.
Proof.
  intros Hk Hrows.
  assert (Hn : Flow.normalize (map (map (Rmult k)) embedding)
               = Flow.normalize embedding).
  { unfold Flow.normalize. rewrite map_map.
    induction Hrows as [|v t [Hv Hkv] _ IH]; simpl; [reflexivity|].
    rewrite IH, normalize_row_scaled by assumption. reflexivity. }
  unfold Flow.inference, Flow.project_speaker. rewrite Hn. reflexivity.
Qed.

Lemma inference_speaker_scale_invariant_witness :
  Flow.inference Flow.pad_mask Flow.echo_model [[0; 1]%Z] [2%Z] [[]] [0%Z]
    [[]] [0%Z] (map (map (Rmult 3)) [[2%R]]) tt
  = Flow.inference Flow.pad_mask Flow.echo_model [[0; 1]%Z] [2%Z] [[]] [0%Z]
      [[]] [0%Z] [[2%R]] tt.
Proof.
  assert (Hk : (0 < 3)%R) by lra.
  assert (Hrows : Forall (fun v => (1 / 1000000000000 <= Flow.l2_norm v)%R /\
                                   (1 / 1000000000000 <= 3 * Flow.l2_norm v)%R)
                    [[2%R]]).
  { constructor; [|constructor]. rewrite l2_norm_singleton by lra. split; lra. }
  exact (inference_speaker_scale_invariant Flow.pad_mask Flow.echo_model
           [[0; 1]%Z] [2%Z] [[]] [0%Z] [[]] [0%Z] [[2%R]] 3 tt Hk Hrows).
Defined.

(** ** The token embedding and the padding mask *)

Lemma nth_error_combine {A B : Type} (a : list A) (b : list B) (i : nat)
    (x : A) (y : B) :
  nth_error a i = Some x -> nth_error b i = Some y ->
  nth_error (combine a b) i = Some (x, y).
Proof.
  revert b i. induction a as [|a0 a IH]; intros [|b0 b] [|i] Ha Hb;
    simpl in *; try discriminate.
  - inversion Ha; inversion Hb; reflexivity.
  - apply IH; assumption.
Qed.

Lemma bzipM_nth_error {A B C : Type} (f : A -> B -> result C)
    (a : list A) (b : list B) (c : list C) (i : nat) (x : A) (y : B) :
  length a = length b -> bzipM f a b = Ok c ->
  nth_error a i = Some x -> nth_error b i = Some y ->
  exists z, f x y = Ok z /\ nth_error c i = Some z.
Proof.
  intros Hlen Hc Ha Hb. rewrite bzipM_same_length in Hc by exact Hlen.
  exact (mapM_nth_error _ _ _ Hc _ _ (nth_error_combine _ _ _ _ _ Ha Hb)).
Qed.

Lemma Embedding_forward_row (w : tensor2) (i : Z) (row : vec) :
  nn.Embedding.forward w i = Ok row ->
  (0 <= i)%Z /\ nth_error w (Z.to_nat i) = Some row.
Proof.
  unfold nn.Embedding.forward.
  destruct (Z.ltb_spec i 0) as [|Hi]; [discriminate|].
  destruct (nth_error w (Z.to_nat i)) as [r|]; [|discriminate].
  intro H; inversion H; subst. split; [exact Hi|reflexivity].
Qed.

(** X15. After line 74 (and 119) a padded position of the token tensor
    holds zeros, and every other position holds the row of the embedding
    table for [max(id, 0)], unchanged. *)
Theorem embed_and_mask_entries {G : Type} (m : Flow.MaskedDiffWithXvec (G := G))
    (b t : nat) (token : tokens) (mask : list (list bool)) (tok : tensor3) :
  has_shape2 b t token -> has_shape2 b t mask ->
  Flow.embed_and_mask m token (Flow.unsqueeze_last (Flow.not_float mask)) = Ok tok ->
  forall i j trow id mrow pad,
    nth_error token i = Some trow -> nth_error trow j = Some id ->
    nth_error mask i = Some mrow -> nth_error mrow j = Some pad ->
    exists frames v row,
      nth_error tok i = Some frames /\ nth_error frames j = Some v /\
      nth_error (Flow.input_embedding m) (Z.to_nat (Z.max 0 id)) = Some row /\
      length v = length row /\
      (pad = true -> Forall (fun x => x = 0%R) v) /\
      (pad = false -> v = row).
Proof.
  intros [Hb Hrows] [Hmb Hmrows] Hrun i j trow id mrow pad Hi Hj Hmi Hmj.
  unfold Flow.embed_and_mask in Hrun.
  destruct (Flow.embed_tokens m token) as [e|err] eqn:He; [|discriminate].
  cbn [rbind] in Hrun. unfold Flow.embed_tokens, Flow.clamp_min0 in He.
  assert (Hi' : nth_error (map (map (Z.max 0)) token) i = Some (map (Z.max 0) trow))
    by (rewrite nth_error_map, Hi; reflexivity).
  destruct (mapM_nth_error _ _ _ He _ _ Hi') as [erow [Herow Hei]].
  assert (Hj' : nth_error (map (Z.max 0) trow) j = Some (Z.max 0 id))
    by (rewrite nth_error_map, Hj; reflexivity).
  destruct (mapM_nth_error _ _ _ Herow _ _ Hj') as [row [Hrow Hej]].
  apply Embedding_forward_row in Hrow. destruct Hrow as [_ Hrow].
  set (y := if pad then 0%R else 1%R).
  assert (Hmi' : nth_error (Flow.unsqueeze_last (Flow.not_float mask)) i
                 = Some (map (fun v : R => [v])
                            (map (fun p : bool => if p then 0%R else 1%R) mrow))).
  { unfold Flow.unsqueeze_last, Flow.not_float.
    rewrite !nth_error_map, Hmi. reflexivity. }
  assert (Hmj' : nth_error (map (fun v : R => [v])
                              (map (fun p : bool => if p then 0%R else 1%R) mrow)) j
                 = Some [y]).
  { rewrite !nth_error_map, Hmj. reflexivity. }
  assert (Hlen1 : length e = length (Flow.unsqueeze_last (Flow.not_float mask))).
  { rewrite (mapM_length _ _ _ He). unfold Flow.unsqueeze_last, Flow.not_float.
    rewrite !length_map. lia. }
  unfold Flow.tmul in Hrun.
  destruct (bzipM_nth_error _ _ _ _ i _ _ Hlen1 Hrun Hei Hmi')
    as [frames [Hframes Hti]].
  assert (Hlen2 : length erow
                  = length (map (fun v : R => [v])
                              (map (fun p : bool => if p then 0%R else 1%R) mrow))).
  { rewrite (mapM_length _ _ _ Herow), !length_map.
    rewrite Forall_forall in Hrows, Hmrows.
    rewrite (Hrows trow (nth_error_In _ _ Hi)).
    rewrite (Hmrows mrow (nth_error_In _ _ Hmi)). reflexivity. }
  destruct (bzipM_nth_error _ _ _ _ j _ _ Hlen2 Hframes Hej Hmj')
    as [v [Hv Hfj]].
  rewrite vmul_singleton in Hv. inversion Hv; subst v; clear Hv.
  exists frames, (map (fun x => (x * y)%R) row), row.
  split; [exact Hti|]. split; [exact Hfj|]. split; [exact Hrow|].
  split; [apply length_map|]. split.
  - intro Hp. subst pad. unfold y. apply Forall_map, Forall_forall.
    intros x _. ring.
  - intro Hp. subst pad. unfold y. rewrite <- (map_id row) at 2.
    apply map_ext. intro x. ring.
Qed.

Lemma embed_and_mask_entries_witness :
  exists frames v row,
    nth_error [[[1]; [0]]]%R 0 = Some frames /\ nth_error frames 1 = Some v /\
    nth_error (Flow.input_embedding Flow.echo_model) (Z.to_nat (Z.max 0 1))
      = Some row /\
    length v = length row /\
    (true = true -> Forall (fun x => x = 0%R) v) /\
    (true = false -> v = row).
Proof.
  assert (Ht : has_shape2 1 2 [[-1; 1]%Z])
    by (split; [reflexivity|repeat constructor]).
  assert (Hm : has_shape2 1 2 [[false; true]])
    by (split; [reflexivity|repeat constructor]).
  assert (Hrun : Flow.embed_and_mask Flow.echo_model [[-1; 1]%Z]
                   (Flow.unsqueeze_last (Flow.not_float [[false; true]]))
                 = Ok [[[1]; [0]]]%R).
  { unfold Flow.embed_and_mask.
    change (Flow.embed_tokens Flow.echo_model [[-1; 1]%Z])
      with (Ok (A := tensor3) [[[1]; [2]]]%R).
    cbn [rbind]. unfold Flow.tmul, Flow.unsqueeze_last, Flow.not_float.
    cbn [map bzipM length Nat.eqb combine mapM fst snd rbind].
    rewrite !vmul_singleton. cbn [map rbind].
    repeat f_equal; ring. }
  exact (embed_and_mask_entries Flow.echo_model 1 2 [[-1; 1]%Z] [[false; true]]
           [[[1]; [0]]]%R Ht Hm Hrun 0%nat 1%nat [-1; 1]%Z 1%Z [false; true] true
           eq_refl eq_refl eq_refl eq_refl).
Defined.

(** X16. The clamp of lines 74 and 119 protects the lower bound only: a
    token id at or above the number of rows of the embedding table raises
    an [IndexError], whatever the mask is. *)
Theorem embed_and_mask_id_too_large {G : Type}
    (m : Flow.MaskedDiffWithXvec (G := G)) (token : tokens) (mask : tensor3)
    (row : list Z) (id : Z) :
  In row token -> In id row ->
  (Z.of_nat (length (Flow.input_embedding m)) <= id)%Z ->
  Flow.embed_and_mask m token mask = Err IndexError.
Proof.
  intros Hrow Hid Hbig. unfold Flow.embed_and_mask, Flow.embed_tokens.
  rewrite (Embedding_rows_out_of_range _ _ (map (Z.max 0) row) (Z.max 0 id)).
  - reflexivity.
  - unfold Flow.clamp_min0. apply in_map. exact Hrow.
  - apply in_map. exact Hid.
  - right. lia.
Qed.

Lemma embed_and_mask_id_too_large_witness :
  Flow.embed_and_mask Flow.echo_model [[0; 2]%Z] [[[1]; [1]]]%R = Err IndexError.
Proof.
  assert (Hrow : In [0; 2]%Z [[0; 2]%Z]) by (left; reflexivity).
  assert (Hid : In 2%Z [0; 2]%Z) by (right; left; reflexivity).
  assert (Hbig : (Z.of_nat (length (Flow.input_embedding Flow.echo_model)) <= 2)%Z)
    by (simpl; lia).
  exact (embed_and_mask_id_too_large Flow.echo_model [[0; 2]%Z] [[[1]; [1]]]%R
           [0; 2]%Z 2%Z Hrow Hid Hbig).
Defined.

(** ** Errors of [inference] *)

(** X17. When [token] has one row but [prompt_token] does not, [inference]
    raises a [RuntimeError] before the encoder, the length regulator or
    the decoder has run: the generator state is untouched. *)
Theorem inference_prompt_batch_mismatch {G : Type}
    (make_pad_mask : list Z -> result (list (list bool)))
    (m : Flow.MaskedDiffWithXvec (G := G))
    (token : tokens) (token_len : list Z)
    (prompt_token : tokens) (prompt_token_len : list Z)
    (prompt_feat : tensor3) (prompt_feat_len : list Z) (embedding : tensor2)
    (g : G) :
  length token = 1%nat -> length prompt_token <> 1%nat ->
  Flow.inference make_pad_mask m token token_len prompt_token prompt_token_len
    prompt_feat prompt_feat_len embedding g
  = (Err RuntimeError, g).
Proof.
  intros Hone Hne. unfold Flow.inference, bind, lift.
  rewrite Hone. cbn [Nat.eqb].
  assert (Hspk : (exists spks, Flow.project_speaker m embedding = Ok spks) \/
                 Flow.project_speaker m embedding = Err RuntimeError).
  { unfold Flow.project_speaker. apply mapM_only_err.
    intros v _. apply Linear_forward_row_cases. }
  destruct Hspk as [[spks ->]| ->]; [|reflexivity].
  unfold cat_dim1. rewrite Hone.
  destruct (Nat.eqb_spec (length prompt_token) 1) as [Heq|_]; [contradiction|].
  reflexivity.
Qed.

Lemma inference_prompt_batch_mismatch_witness :
  Flow.inference Flow.pad_mask Flow.echo_model [[0; 1]%Z] [2%Z] [] [0%Z]
    [[]] [0%Z] [[1%R]] tt
  = (Err RuntimeError, tt).
Proof.
  assert (Hone : length [[0; 1]%Z] = 1%nat) by reflexivity.
  assert (Hne : length (@nil (list Z)) <> 1%nat) by (simpl; lia).
  exact (inference_prompt_batch_mismatch Flow.pad_mask Flow.echo_model
           [[0; 1]%Z] [2%Z] [] [0%Z] [[]] [0%Z] [[1%R]] tt Hone Hne).
Defined.

(** ** The conditioning frames *)

Lemma skipn_repeat_sub {A : Type} (x : A) (k n : nat) :
  skipn k (repeat x n) = repeat x (n - k).
Proof.
  revert n; induction k as [|k IH]; intros [|n]; simpl; try reflexivity.
  apply IH.
Qed.

Lemma expand_row_cases (c : nat) (r : vec) :
  (exists r', Flow.expand_row c r = Ok r') \/
  Flow.expand_row c r = Err RuntimeError.
Proof.
  unfold Flow.expand_row. destruct (Nat.eqb (length r) c).
  - left; eexists; reflexivity.
  - destruct r as [|x [|x2 r]];
      [right; reflexivity|left; eexists; reflexivity|right; reflexivity].
Qed.

(** X18. For a prompt of [c]-channel frames that is not longer than
    [feat_len], the conditions of lines 128-131 are the prompt frames
    followed by zero frames up to [feat_len] frames in all. *)
Theorem make_conds_value {G : Type} (m : Flow.MaskedDiffWithXvec (G := G))
    (fl : Z) (pf : tensor2) :
  Forall (has_shape1 (Flow.output_size m)) pf ->
  (Z.of_nat (length pf) <= fl)%Z ->
  Flow.make_conds m [fl] [pf] [Z.of_nat (length pf)]
  = Ok [pf ++ repeat (repeat 0%R (Flow.output_size m))
                     (Z.to_nat fl - length pf)].
Proof.
  intros Hpf Hle. unfold Flow.make_conds.
  cbn [Flow.zmax fold_left rbind]. unfold Flow.zeros.
  destruct (Z.ltb_spec fl 0) as [Hneg|_]; [lia|]. cbn [rbind].
  destruct (Nat.eqb_spec (Flow.shape1 [pf]) 0) as [Hempty|Hnonempty].
  - simpl in Hempty. apply length_zero_iff_nil in Hempty. subst pf.
    simpl. rewrite Nat.sub_0_r. reflexivity.
  - cbn [Flow.fill_conds nth_error]. unfold Flow.assign_prefix.
    cbn [nth_error].
    assert (Hk : Flow.py_slice_stop (Z.of_nat (length pf))
                   (length (repeat (repeat 0%R (Flow.output_size m)) (Z.to_nat fl)))
                 = length pf).
    { unfold Flow.py_slice_stop. rewrite repeat_length.
      destruct (Z.ltb_spec (Z.of_nat (length pf)) 0); lia. }
    rewrite Hk, expand_rows_same by assumption. cbn [rbind Flow.set_nth].
    rewrite skipn_repeat_sub. reflexivity.
Qed.

Lemma make_conds_value_witness :
  Flow.make_conds Flow.echo_model [3%Z] [[[5%R]]] [Z.of_nat (length [[5%R]])]
  = Ok [[[5%R]] ++ repeat (repeat 0%R (Flow.output_size Flow.echo_model))
                          (Z.to_nat 3 - length [[5%R]])].
Proof.
  assert (Hpf : Forall (has_shape1 (Flow.output_size Flow.echo_model)) [[5%R]])
    by (repeat constructor).
  assert (Hle : (Z.of_nat (length [[5%R]]) <= 3)%Z) by (simpl; lia).
  exact (make_conds_value Flow.echo_model 3 [[5%R]] Hpf Hle).
Defined.

(** X19. A prompt of two or more frames that is longer than [feat_len]
    makes the assignment [conds[i, :j] = prompt_feat[i]] of line 131 raise
    a [RuntimeError]: the prompt is not truncated. *)
Theorem make_conds_prompt_too_long {G : Type}
    (m : Flow.MaskedDiffWithXvec (G := G)) (fl : Z) (pf : tensor2) :
  (0 <= fl)%Z -> (fl < Z.of_nat (length pf))%Z -> (2 <= length pf)%nat ->
  Flow.make_conds m [fl] [pf] [Z.of_nat (length pf)] = Err RuntimeError.
Proof.
  intros Hfl Hlong Htwo. unfold Flow.make_conds.
  cbn [Flow.zmax fold_left rbind]. unfold Flow.zeros.
  destruct (Z.ltb_spec fl 0) as [Hneg|_]; [lia|]. cbn [rbind].
  destruct (Nat.eqb_spec (Flow.shape1 [pf]) 0) as [Hempty|_];
    [simpl in Hempty; lia|].
  cbn [Flow.fill_conds nth_error]. unfold Flow.assign_prefix.
  cbn [nth_error].
  assert (Hk : Flow.py_slice_stop (Z.of_nat (length pf))
                 (length (repeat (repeat 0%R (Flow.output_size m)) (Z.to_nat fl)))
               = Z.to_nat fl).
  { unfold Flow.py_slice_stop. rewrite repeat_length.
    destruct (Z.ltb_spec (Z.of_nat (length pf)) 0); lia. }
  rewrite Hk.
  assert (Hexp : Flow.expand (Z.to_nat fl) (Flow.output_size m) pf
                 = Err RuntimeError).
  { unfold Flow.expand.
    destruct (mapM_only_err (Flow.expand_row (Flow.output_size m)) RuntimeError pf)
      as [[rows Hrows]|Herr].
    - intros r _. apply expand_row_cases.
    - rewrite Hrows. cbn [rbind].
      pose proof (mapM_length _ _ _ Hrows) as Hlen.
      destruct (Nat.eqb_spec (length rows) (Z.to_nat fl)) as [Heq|_]; [lia|].
      destruct rows as [|r [|r2 rows]]; try reflexivity.
      simpl in Hlen. lia.
    - rewrite Herr. reflexivity. }
  rewrite Hexp. reflexivity.
Qed.

Lemma make_conds_prompt_too_long_witness :
  Flow.make_conds Flow.echo_model [1%Z] [[[5%R]; [6%R]]]
    [Z.of_nat (length [[5%R]; [6%R]])] = Err RuntimeError.
Proof.
  assert (Hfl : (0 <= 1)%Z) by lia.
  assert (Hlong : (1 < Z.of_nat (length [[5%R]; [6%R]]))%Z) by (simpl; lia).
  assert (Htwo : (2 <= length [[5%R]; [6%R]])%nat) by (simpl; lia).
  exact (make_conds_prompt_too_long Flow.echo_model 1 [[5%R]; [6%R]]
           Hfl Hlong Htwo).
Defined.

(** ** The number of mel frames *)

Lemma Int_part_monotone (x y : R) : (x <= y)%R -> (Int_part x <= Int_part y)%Z.
Proof.
  intro Hxy.
  destruct (base_Int_part x) as [Hx1 Hx2].
  destruct (base_Int_part y) as [Hy1 Hy2].
  assert (H : (IZR (Int_part x) < IZR (Int_part y + 1))%R).
  { rewrite plus_IZR. lra. }
  apply lt_IZR in H. lia.
Qed.

Lemma Rtrunc_nonpos (x : R) : (x < 0)%R -> (Flow.Rtrunc x <= 0)%Z.
Proof.
  intro Hx. unfold Flow.Rtrunc.
  destruct (Rlt_dec x 0) as [_|Hn]; [|contradiction].
  destruct (base_Int_part (- x)) as [_ Hlow].
  assert (H : (IZR (-1) < IZR (Int_part (- x)))%R) by (simpl; lra).
  apply lt_IZR in H. lia.
Qed.

Lemma Rtrunc_monotone (x y : R) :
  (x <= y)%R -> (Flow.Rtrunc x <= Flow.Rtrunc y)%Z.
Proof.
  intro Hxy.
  destruct (Rlt_dec y 0) as [Hy|Hy].
  - unfold Flow.Rtrunc.
    destruct (Rlt_dec x 0) as [_|Hx]; [|lra].
    destruct (Rlt_dec y 0) as [_|Hy']; [|contradiction].
    assert (H : (Int_part (- y) <= Int_part (- x))%Z)
      by (apply Int_part_monotone; lra).
    lia.
  - assert (Hy0 : (0 <= Flow.Rtrunc y)%Z) by (apply Rtrunc_nonneg; lra).
    destruct (Rlt_dec x 0) as [Hx|Hx].
    + pose proof (Rtrunc_nonpos x Hx). lia.
    + unfold Flow.Rtrunc.
      destruct (Rlt_dec x 0) as [Hx'|_]; [contradiction|].
      destruct (Rlt_dec y 0) as [Hy'|_]; [contradiction|].
      apply Int_part_monotone; exact Hxy.
Qed.



(** ** The random conditions of [forward] *)

Lemma length_set_nth {A : Type} (i : nat) (x : A) (l : list A) :
  length (Flow.set_nth i x l) = length l.
Proof.
  revert i; induction l as [|y t IH]; intros [|i]; simpl; try reflexivity.
  rewrite IH; reflexivity.
Qed.

Lemma nth_error_set_nth_eq {A : Type} (i : nat) (x : A) (l : list A) :
  (i < length l)%nat -> nth_error (Flow.set_nth i x l) i = Some x.
Proof.
  revert i; induction l as [|y t IH]; intros [|i] Hi; simpl in *;
    try lia; [reflexivity|].
  apply IH; lia.
Qed.

Lemma nth_error_set_nth_neq {A : Type} (i r : nat) (x : A) (l : list A) :
  i <> r -> nth_error (Flow.set_nth i x l) r = nth_error l r.
Proof.
  revert i r; induction l as [|y t IH]; intros [|i] [|r] Hne; simpl;
    try reflexivity; try contradiction.
  apply IH. lia.
Qed.

Section RandomConds.

Context {G : Type}.
Variable random_random : M G R.
Variable random_randint : Z -> Z -> M G Z.
Variable feat : tensor3.

(** The loop invariant: row [r] of [conds] is a prefix of row [r] of
    [feat] followed by zero frames, and the rows from [i] on are still all
    zero. *)
Lemma random_conds_invariant (lens : list Z) :
  forall (i : nat) (conds : tensor3) (g g' : G) (out : tensor3),
  length conds = length feat ->
  (forall r src, nth_error feat r = Some src ->
     (exists k, nth_error conds r
                = Some (firstn k src
                        ++ map (map (fun _ : R => 0%R)) (skipn k src))) /\
     ((i <= r)%nat ->
      nth_error conds r = Some (map (map (fun _ : R => 0%R)) src))) ->
  Flow.random_conds random_random random_randint feat conds i lens g
    = (Ok out, g') ->
  length out = length feat /\
  forall r src, nth_error feat r = Some src ->
    exists k, nth_error out r
              = Some (firstn k src
                      ++ map (map (fun _ : R => 0%R)) (skipn k src)).
Proof.
  induction lens as [|j rest IH]; intros i conds g g' out Hlen Hrows Hrun.
  - simpl in Hrun. unfold ret in Hrun. inversion Hrun; subst.
    split; [exact Hlen|]. intros r src Hr. exact (proj1 (Hrows r src Hr)).
  - cbn [Flow.random_conds] in Hrun.
    apply bind_ok_inv in Hrun. destruct Hrun as [r [g1 [_ Hrun]]].
    destruct (Rlt_dec r 0.5) as [_|_].
    + apply (IH (S i) conds g1 g' out Hlen); [|exact Hrun].
      intros q src Hq. destruct (Hrows q src Hq) as [Hk Hz].
      split; [exact Hk|]. intro Hle. apply Hz. lia.
    + apply bind_ok_inv in Hrun. destruct Hrun as [index [g2 [_ Hrun]]].
      apply bind_ok_inv in Hrun. destruct Hrun as [conds' [g3 [Hcopy Hrun]]].
      unfold lift in Hcopy. inversion Hcopy as [[Hc Hg]]; clear Hcopy.
      unfold Flow.copy_prefix in Hc.
      destruct (nth_error feat i) as [src|] eqn:Hsrc; [|discriminate].
      destruct (nth_error conds i) as [block|] eqn:Hblock; [|discriminate].
      inversion Hc; subst conds'; clear Hc.
      assert (Hi : (i < length conds)%nat)
        by (apply nth_error_Some; rewrite Hblock; discriminate).
      destruct (Hrows i src Hsrc) as [_ Hz].
      rewrite Hz in Hblock by lia. inversion Hblock; subst block.
      apply (fun H1 H2 => IH (S i) _ g3 g' out H1 H2 Hrun);
        [rewrite length_set_nth; exact Hlen|].
      intros q src' Hq.
      destruct (Nat.eq_dec i q) as [<-|Hne].
      * rewrite Hsrc in Hq. inversion Hq; subst src'.
        rewrite nth_error_set_nth_eq by exact Hi. split; [|lia].
        eexists. rewrite skipn_map. reflexivity.
      * rewrite nth_error_set_nth_neq by exact Hne.
        destruct (Hrows q src' Hq) as [Hk Hz'].
        split; [exact Hk|]. intro Hle. apply Hz'. lia.
Qed.

End RandomConds.

(** X21. Whatever the random numbers are, the conditions that [forward]
    builds in lines 83-88 have as many rows as [feat], and every row is a
    prefix of the frames of the same row of [feat] followed by zero frames
    of the same width. *)
Theorem random_conds_prefix_of_feat {G : Type}
    (random_random : M G R) (random_randint : Z -> Z -> M G Z)
    (feat : tensor3) (lens : list Z) (g g' : G) (out : tensor3) :
  Flow.random_conds random_random random_randint feat
    (map (map (map (fun _ : R => 0%R))) feat) 0 lens g = (Ok out, g') ->
  length out = length feat /\
  forall r src, nth_error feat r = Some src ->
    exists k, nth_error out r
              = Some (firstn k src ++ map (map (fun _ : R => 0%R)) (skipn k src)).
Proof.
  intro Hrun.
  apply (fun H1 H2 => random_conds_invariant random_random random_randint feat
                         lens 0 _ g g' out H1 H2 Hrun); [apply length_map|].
  intros r src Hr.
  assert (Hz : nth_error (map (map (map (fun _ : R => 0%R))) feat) r
               = Some (map (map (fun _ : R => 0%R)) src))
    by (rewrite nth_error_map, Hr; reflexivity).
  split; [|intros _; exact Hz].
  exists 0%nat. exact Hz.
Qed.

Lemma random_conds_prefix_of_feat_witness :
  length [[[1]; [0]]]%R = length [[[1]; [2]]]%R /\
  forall r src, nth_error [[[1]; [2]]]%R r = Some src ->
    exists k, nth_error [[[1]; [0]]]%R r
              = Some (firstn k src ++ map (map (fun _ : R => 0%R)) (skipn k src)).
Proof.
  assert (Hrun : Flow.random_conds (fun g : unit => (Ok 0.7%R, g))
                   (fun (_ hi : Z) (g : unit) => (Ok hi, g)) [[[1]; [2]]]%R
                   (map (map (map (fun _ : R => 0%R))) [[[1]; [2]]]%R) 0 [2%Z] tt
                 = (Ok [[[1]; [0]]]%R, tt)).
  { cbn [Flow.random_conds]. unfold bind at 1. cbv beta iota.
    destruct (Rlt_dec 0.7 0.5) as [Hlt|_]; [exfalso; lra|].
    assert (Ht : Flow.Rtrunc (0.8 * IZR 2) = 1%Z)
      by (apply Rtrunc_between; lra).
    rewrite Ht. reflexivity. }
  exact (random_conds_prefix_of_feat (fun g : unit => (Ok 0.7%R, g))
           (fun (_ hi : Z) (g : unit) => (Ok hi, g)) [[[1]; [2]]]%R [2%Z]
           tt tt [[[1]; [0]]]%R Hrun).
Defined.

(** ** Generation from an empty prompt *)

Lemma idx_cond_empty_rows (context_size : Z) (b : nat) (idx : tokens) :
  has_shape2 b 0 idx -> GPT2.idx_cond context_size idx = idx.
Proof.
  intros [_ Hrows]. unfold GPT2.idx_cond.
  induction Hrows as [|row rest Hrow _ IH]; simpl; [reflexivity|].
  rewrite IH. unfold has_shape1 in Hrow.
  apply length_zero_iff_nil in Hrow. subst row.
  unfold py_slice_from. rewrite skipn_nil. reflexivity.
Qed.

(** X22. With a built [GPTModel], generating one or more tokens from a
    non-empty batch of empty prompts raises an [IndexError], whatever the
    context size: the logits have no last position to select. *)
Theorem generate_empty_prompt_raises {G : Type} (cfg : GPT2.Config)
    (m : GPT2.GPTModel (G := G)) (idx : tokens) (b : nat)
    (max_new_tokens context_size : Z) (g : G) :
  GPT2.GPTModel_built cfg m ->
  has_shape2 b 0 idx -> (1 <= b)%nat -> (1 <= max_new_tokens)%Z ->
  exists g',
    GPT2.generate_text_simple (GPT2.GPTModel_forward m) idx max_new_tokens
      context_size g = (Err IndexError, g').
Proof.
  intros Hbuilt Hshape Hb Hn. unfold GPT2.generate_text_simple.
  destruct (Z.to_nat max_new_tokens) as [|k] eqn:Hk; [lia|].
  cbn [GPT2.generate_loop]. unfold GPT2.generate_step.
  rewrite (idx_cond_empty_rows context_size b idx Hshape).
  assert (Hids : GPT2.ids_in_vocab (GPT2.vocab_size cfg) idx).
  { destruct Hshape as [_ Hrows]. unfold GPT2.ids_in_vocab.
    eapply Forall_impl; [|exact Hrows].
    intros row Hrow. unfold has_shape1 in Hrow.
    apply length_zero_iff_nil in Hrow. subst row. constructor. }
  assert (H0 : (0 <= GPT2.context_length cfg)%nat) by lia.
  destruct (GPTModel_forward_shape cfg m idx b 0 g Hbuilt Hshape H0 Hids)
    as [logits [g' [Hm [Hlb Hl]]]].
  exists g'. unfold bind. rewrite Hm. unfold lift.
  destruct logits as [|seq rest]; [simpl in Hlb; lia|].
  inversion Hl as [|? ? [Hseq _] _]; subst.
  apply length_zero_iff_nil in Hseq. subst seq.
  reflexivity.
Qed.

Lemma generate_empty_prompt_raises_witness :
  exists g',
    GPT2.generate_text_simple (GPT2.GPTModel_forward GPT2.tiny_model) [[]] 1 2 tt
    = (Err IndexError, g').
Proof.
  assert (Hs : has_shape2 (A := Z) 1 0 [[]])
    by (split; [reflexivity|repeat constructor]).
  assert (Hb : (1 <= 1)%nat) by lia.
  assert (Hn : (1 <= 1)%Z) by lia.
  exact (generate_empty_prompt_raises GPT2.tiny_config GPT2.tiny_model [[]] 1 1 2
           tt tiny_model_built Hs Hb Hn).
Defined.

(** ** A speaker embedding of the wrong width *)

Lemma project_speaker_width_mismatch {G : Type}
    (m : Flow.MaskedDiffWithXvec (G := G)) (embedding : tensor2) (v : vec) :
  In v embedding ->
  length v <> nn.Linear.in_features (Flow.spk_embed_affine_layer m) ->
  Flow.project_speaker m embedding = Err RuntimeError.
Proof.
  intros Hv Hlen. unfold Flow.project_speaker, Flow.normalize.
  apply mapM_some_err.
  - intros x _. apply Linear_forward_row_cases.
  - exists (Flow.normalize_row v). split; [apply in_map; exact Hv|].
    unfold nn.Linear.forward_row, Flow.normalize_row. rewrite length_map.
    destruct (Nat.eqb_spec (length v)
                (nn.Linear.in_features (Flow.spk_embed_affine_layer m)))
      as [Heq|_]; [contradiction|reflexivity].
Qed.

(** X23. When a row of the speaker embedding does not have the input width
    of [spk_embed_affine_layer], both [forward] and (on a single batch row)
    [inference] raise a [RuntimeError] at the projection of lines 68 and
    114, before the mask helper or any injected layer has run and before a
    random number is drawn. *)
Theorem speaker_embedding_width_mismatch {G : Type}
    (make_pad_mask : list Z -> result (list (list bool)))
    (random_random : M G R) (random_randint : Z -> Z -> M G Z)
    (interpolate_nearest : tensor3 -> nat -> nat -> result tensor3)
    (m : Flow.MaskedDiffWithXvec (G := G)) (batch : Flow.Batch) (v : vec)
    (token : tokens) (token_len : list Z)
    (prompt_token : tokens) (prompt_token_len : list Z)
    (prompt_feat : tensor3) (prompt_feat_len : list Z) (g : G) :
  In v (Flow.batch_embedding batch) ->
  length v <> nn.Linear.in_features (Flow.spk_embed_affine_layer m) ->
  Flow.forward make_pad_mask random_random random_randint interpolate_nearest
    m batch g = (Err RuntimeError, g) /\
  (length token = 1%nat ->
   Flow.inference make_pad_mask m token token_len prompt_token prompt_token_len
     prompt_feat prompt_feat_len (Flow.batch_embedding batch) g
   = (Err RuntimeError, g)).
Proof.
  intros Hv Hlen.
  pose proof (project_speaker_width_mismatch m _ v Hv Hlen) as Hspk.
  split.
  - unfold Flow.forward, bind, lift. rewrite Hspk. reflexivity.
  - intro Hone. unfold Flow.inference, bind, lift.
    rewrite Hone. cbn [Nat.eqb]. rewrite Hspk. reflexivity.
Qed.

Lemma speaker_embedding_width_mismatch_witness :
  Flow.forward Flow.pad_mask (fun g : unit => (Ok 0%R, g))
    (fun (_ hi : Z) (g : unit) => (Ok hi, g)) (fun x _ _ => Ok x)
    Flow.echo_model (Flow.mkBatch [[0; 1]%Z] [2%Z] [[[1]; [2]]]%R [2%Z] [[1; 2]]%R)
    tt = (Err RuntimeError, tt) /\
  (length [[0; 1]%Z] = 1%nat ->
   Flow.inference Flow.pad_mask Flow.echo_model [[0; 1]%Z] [2%Z] [[]] [0%Z]
     [[]] [0%Z]
     (Flow.batch_embedding
        (Flow.mkBatch [[0; 1]%Z] [2%Z] [[[1]; [2]]]%R [2%Z] [[1; 2]]%R)) tt
   = (Err RuntimeError, tt)).
Proof.
  assert (Hv : In [1; 2]%R
                 (Flow.batch_embedding
                    (Flow.mkBatch [[0; 1]%Z] [2%Z] [[[1]; [2]]]%R [2%Z] [[1; 2]]%R)))
    by (left; reflexivity).
  assert (Hlen : length [1; 2]%R
                 <> nn.Linear.in_features
                      (Flow.spk_embed_affine_layer Flow.echo_model))
    by (simpl; lia).
  exact (speaker_embedding_width_mismatch Flow.pad_mask
           (fun g : unit => (Ok 0%R, g))
           (fun (_ hi : Z) (g : unit) => (Ok hi, g)) (fun x _ _ => Ok x)
           Flow.echo_model
           (Flow.mkBatch [[0; 1]%Z] [2%Z] [[[1]; [2]]]%R [2%Z] [[1; 2]]%R)
           [1; 2]%R [[0; 1]%Z] [2%Z] [[]] [0%Z] [[]] [0%Z] tt Hv Hlen).
Defined.
